(** * Teacher-score: the allocation function [calculate]

    A shallow embedding of [calculate] from
    [teacher-score-web/src/App.tsx] (lines 8-112): the record parser, the
    month-by-month walk with its per-role and combined caps, and the final
    aggregation.  The React component around it only calls [calculate] and
    renders its result.

    - A JavaScript string is the list of its UTF-16 code units; the record
      pattern is a backtracking matcher with the alternatives in the order
      the regular-expression semantics tries them.
    - A JavaScript number is kept abstract behind the class [JSNumber] and
      instantiated twice: by exact rationals [Q], over which the general
      theorems are proved, and by the IEEE-754 binary64 primitive floats,
      over which the concrete runs are evaluated as well.  Month indices and
      the months-served counters are integers [Z].
    - A [throw] is a value of [result]; a property read on [undefined] is
      the error [TypeError].
    - [roleState] is a total map from the seven own keys; [ROLE_INFO] and
      [roleState] looked up with a string also see the properties inherited
      from [Object.prototype].
    - [Array.prototype.sort] is a stable insertion sort. *)

From Stdlib Require Import ZArith NArith QArith Qround List Bool Lia Lqa.
From Stdlib Require Import Ascii String DecimalString DecimalPos.
From Stdlib Require Import Uint63 PrimFloat SpecFloat FloatOps.
From Stdlib Require Import Permutation Sorted.
Import ListNotations.

Set Implicit Arguments.

(** ** Strings *)

Module JS.

Definition jsstring := list N.

(** The code units of an ASCII literal. *)
Definition units (s : string) : jsstring :=
  List.map N_of_ascii (list_ascii_of_string s).

Definition QUOTE : N := 34.
Definition COMMA : N := 44.
Definition HYPHEN : N := 45.
Definition LF : N := 10.
Definition CR : N := 13.

Definition range (lo hi c : N) : bool := ((lo <=? c) && (c <=? hi))%N.
Definition one_of (l : list N) (c : N) : bool := existsb (N.eqb c) l.

(** LineTerminator: LF, CR, U+2028, U+2029. *)
Definition isLineTerminator (c : N) : bool := one_of [10; 13; 8232; 8233]%N c.

(** WhiteSpace and LineTerminator, the set shared by [String.prototype.trim]
    and the regular-expression class [\s]. *)
Definition isSpace (c : N) : bool :=
  one_of [9; 11; 12; 32; 160; 5760; 8239; 8287; 12288; 65279]%N c
  || range 8192 8202 c || isLineTerminator c.

(** [\d] without the unicode flag. *)
Definition isDigit (c : N) : bool := range 48 57 c.

Fixpoint dropWhile (p : N -> bool) (s : jsstring) : jsstring :=
  match s with
  | c :: r => if p c then dropWhile p r else s
  | [] => []
  end.

Definition trim (s : jsstring) : jsstring :=
  rev (dropWhile isSpace (rev (dropWhile isSpace s))).

(** [s.split(/\r?\n/)]; [cur] holds the current piece, reversed. *)
Fixpoint split_lines_from (cur : jsstring) (s : jsstring) : list jsstring :=
  match s with
  | [] => [rev cur]
  | c :: r =>
      if (c =? LF)%N then rev cur :: split_lines_from [] r
      else if (c =? CR)%N then
        match r with
        | d :: r' =>
            if (d =? LF)%N then rev cur :: split_lines_from [] r'
            else split_lines_from (c :: cur) r
        | [] => split_lines_from (c :: cur) r
        end
      else split_lines_from (c :: cur) r
  end.

Definition split_lines (s : jsstring) : list jsstring := split_lines_from [] s.

(** [s.split(sep)] for a one-unit separator. *)
Fixpoint split_from (sep : N) (cur : jsstring) (s : jsstring) : list jsstring :=
  match s with
  | [] => [rev cur]
  | c :: r =>
      if (c =? sep)%N then rev cur :: split_from sep [] r
      else split_from sep (c :: cur) r
  end.

Definition split (sep : N) (s : jsstring) : list jsstring := split_from sep [] s.

(** [Boolean(s)] on a string. *)
Definition truthy_string (s : jsstring) : bool :=
  match s with [] => false | _ :: _ => true end.

(** [a < b] on strings: lexicographic on code units. *)
Fixpoint string_lt (a b : jsstring) : bool :=
  match a, b with
  | _, [] => false
  | [], _ :: _ => true
  | x :: a', y :: b' =>
      if (x <? y)%N then true
      else if (y <? x)%N then false
      else string_lt a' b'
  end.

Definition string_eqb (a b : jsstring) : bool :=
  if list_eq_dec N.eq_dec a b then true else false.

(** [Number(s)] for [s] a run of decimal digits, the only strings
    [ymToIndex] passes to it. *)
Definition Number (s : jsstring) : Z :=
  fold_left (fun acc c => acc * 10 + (Z.of_N c - 48))%Z s 0%Z.

(** [String(z)] for an integer. *)
Definition String_of_Z (z : Z) : jsstring :=
  units (NilZero.string_of_int (Z.to_int z)).

(** [s.padStart(2, "0")]. *)
Definition padStart2 (s : jsstring) : jsstring :=
  match s with
  | [] => [48; 48]%N
  | [c] => [48; c]%N
  | _ => s
  end.

(** *** The record pattern

    [/Q?(.*?)Q?,\s*Q?(\d{4}-\d{2}-\d{2})Q?,\s*Q?(\d{4}-\d{2}-\d{2})Q?/],
    where [Q] stands for the escaped double-quote character of the source,
    as a backtracking matcher in continuation-passing style: each piece
    takes the matcher [k] of what follows it, and tries its alternatives in
    the order of the regular-expression semantics (greedy pieces the longer
    alternative first, the lazy group the shorter first). *)

Section Regex.
Variable A : Type.
Definition cont := jsstring -> option A.

Definition orElse (x y : option A) : option A :=
  match x with Some a => Some a | None => y end.

(** [Q?]: an optional double quote. *)
Definition opt_quote (k : cont) : cont := fun s =>
  match s with
  | c :: r => if (c =? QUOTE)%N then orElse (k r) (k s) else k s
  | [] => k s
  end.

(** [,] *)
Definition comma (k : cont) : cont := fun s =>
  match s with
  | c :: r => if (c =? COMMA)%N then k r else None
  | [] => None
  end.

(** [\s*] *)
Fixpoint spaces (k : cont) (s : jsstring) : option A :=
  match s with
  | c :: r => if isSpace c then orElse (spaces k r) (k s) else k s
  | [] => k s
  end.

(** [(\d{4}-\d{2}-\d{2})]; the continuation receives the capture. *)
Definition date_shape (d : jsstring) : bool :=
  match d with
  | [y1; y2; y3; y4; h1; m1; m2; h2; d1; d2] =>
      forallb isDigit [y1; y2; y3; y4; m1; m2; d1; d2]
      && (h1 =? HYPHEN)%N && (h2 =? HYPHEN)%N
  | _ => false
  end.

Definition date (k : jsstring -> cont) : cont := fun s =>
  let d := firstn 10 s in
  if date_shape d then k d (skipn 10 s) else None.

(** [(.*?)]; [acc] is the capture so far, reversed. *)
Fixpoint lazy_any (k : jsstring -> cont) (acc : jsstring) (s : jsstring)
  : option A :=
  orElse (k (rev acc) s)
         match s with
         | c :: r => if isLineTerminator c then None
                     else lazy_any k (c :: acc) r
         | [] => None
         end.
End Regex.

Definition captures := (jsstring * jsstring * jsstring)%type.

(** The pattern after the second capture, after the first capture, and
    one attempt of the whole pattern at the head of [s]. *)
Definition after_start (role start : jsstring) : jsstring -> option captures :=
  opt_quote (comma (spaces (opt_quote (date (fun end_ =>
    opt_quote (fun _ => Some (role, start, end_))))))).

Definition after_role (role : jsstring) : jsstring -> option captures :=
  opt_quote (comma (spaces (opt_quote (date (fun start =>
    after_start role start))))).

Definition pattern_at : jsstring -> option captures :=
  opt_quote (lazy_any after_role []).

(** [line.match(re)] for a pattern without the global flag: the first
    attempt that succeeds, start positions taken from left to right. *)
Fixpoint regex_match (s : jsstring) : option captures :=
  match pattern_at s with
  | Some m => Some m
  | None => match s with
            | _ :: r => regex_match r
            | [] => None
            end
  end.

End JS.
Import JS.

(** ** Numbers

    The operations [calculate] applies to JavaScript numbers. *)

Class JSNumber (num : Type) := {
  lit : Q -> num;                    (* a decimal literal *)
  jadd : num -> num -> num;
  jsub : num -> num -> num;
  jmul : num -> num -> num;
  jdiv : num -> num -> num;
  jle : num -> num -> bool;          (* [a <= b] *)
  jlt : num -> num -> bool;          (* [a < b] *)
  truthy : num -> bool;              (* ToBoolean, as in [a || b] *)
  Math_min : num -> num -> num;
  toFixed4 : num -> num              (* [+x.toFixed(4)] *)
}.

Declare Scope js_scope.
Delimit Scope js_scope with js.
Infix "+" := jadd : js_scope.
Infix "-" := jsub : js_scope.
Infix "*" := jmul : js_scope.
Infix "/" := jdiv : js_scope.
Notation "a <=? b" := (jle a b) : js_scope.
Notation "a >=? b" := (jle b a) : js_scope.
Notation "a <? b" := (jlt a b) : js_scope.
Notation "a >? b" := (jlt b a) : js_scope.

(** *** Exact rationals

    [x.toFixed(4)] takes the integer [n] with [n / 10^4] nearest to [x],
    the larger one on a tie, after moving the sign of a negative [x] to the
    front; the unary plus reads the decimal string back. *)

Definition Q_round4 (x : Q) : Q := Qred (Qfloor (x * 10000 + (1 # 2)) # 10000).

Definition Q_toFixed4 (x : Q) : Q :=
  if Qle_bool 0 x then Q_round4 x else Qopp (Q_round4 (Qopp x)).

Definition Q_min (a b : Q) : Q := if Qle_bool a b then a else b.

#[global] Instance Q_number : JSNumber Q := {|
  lit := fun q => q;
  jadd := Qplus;
  jsub := Qminus;
  jmul := Qmult;
  jdiv := Qdiv;
  jle := Qle_bool;
  jlt := fun a b => negb (Qle_bool b a);
  truthy := fun a => negb (Qeq_bool a 0);
  Math_min := Q_min;
  toFixed4 := Q_toFixed4
|}.

(** *** IEEE-754 binary64

    Integers below 2^53 convert exactly, and division rounds to nearest
    even, so [F_lit] is the double nearest to the literal it is given, as
    the JavaScript lexer produces it. *)

Definition F_of_Z (z : Z) : float :=
  if (z <? 0)%Z then PrimFloat.opp (PrimFloat.of_uint63 (Uint63.of_Z (- z)))
  else PrimFloat.of_uint63 (Uint63.of_Z z).

Definition F_lit (q : Q) : float :=
  PrimFloat.div (F_of_Z (Qnum q)) (F_of_Z (Zpos (Qden q))).

(** The [n] of [toFixed(4)] for the magnitude [m * 2^e], computed exactly. *)
Definition F_round4_n (m : positive) (e : Z) : Z :=
  if (0 <=? e)%Z then Zpos m * 2 ^ e * 10000
  else (Zpos m * 20000 + 2 ^ (- e)) / 2 ^ (1 - e).

(** [+x.toFixed(4)].  The digits are read back as the double nearest to
    [n / 10^4], a correctly rounded quotient when [n < 2^53]; larger
    magnitudes (above 9e11, where [toFixed] also changes format at 1e21) lie
    outside what scores can reach and are mapped to [nan]. *)
Definition F_toFixed4 (x : float) : float :=
  match Prim2SF x with
  | S754_nan => PrimFloat.nan
  | S754_infinity _ => x
  | S754_zero _ => PrimFloat.zero
  | S754_finite s m e =>
      let n := F_round4_n m e in
      if (n <? 2 ^ 53)%Z then
        let r := PrimFloat.div (F_of_Z n) (F_of_Z 10000) in
        if s then PrimFloat.opp r else r
      else PrimFloat.nan
  end.

(** [Math.min] on two arguments: NaN is contagious and [-0] is below [+0]. *)
Definition F_min (a b : float) : float :=
  if PrimFloat.is_nan a then a
  else if PrimFloat.is_nan b then b
  else if PrimFloat.ltb a b then a
  else if PrimFloat.ltb b a then b
  else if PrimFloat.get_sign a then a else b.

#[global] Instance F_number : JSNumber float := {|
  lit := F_lit;
  jadd := PrimFloat.add;
  jsub := PrimFloat.sub;
  jmul := PrimFloat.mul;
  jdiv := PrimFloat.div;
  jle := PrimFloat.leb;
  jlt := PrimFloat.ltb;
  truthy := fun a => negb (PrimFloat.is_zero a || PrimFloat.is_nan a);
  Math_min := F_min;
  toFixed4 := F_toFixed4
|}.

(** ** Errors

    [calculate] throws an [Error] with one of three messages, and a missing
    property raises a [TypeError]. *)

Inductive error :=
| ParseError (lineNo : Z) (line : jsstring)   (* line [lineNo] is malformed *)
| UnknownRoleError (role : jsstring)          (* unknown role name *)
| InvalidRangeError (role : jsstring)         (* end date before start date *)
| TypeError.                                  (* property read on [undefined] *)

Inductive result (A : Type) :=
| Ok (a : A)
| Throw (e : error).
Arguments Ok {A} a.
Arguments Throw {A} e.

Definition bind {A B} (x : result A) (f : A -> result B) : result B :=
  match x with Ok a => f a | Throw e => Throw e end.

Notation "x <- c ;; k" := (bind c (fun x => k))
  (at level 61, c at next level, right associativity).
Notation "' p <- c ;; k" := (bind c (fun x => let p := x in k))
  (at level 61, p pattern, c at next level, right associativity).

(** [l.map(f)] for an [f] that may throw: elements in order, the first
    throw wins.  [idx] is the index passed to [f]. *)
Fixpoint map_from {A B} (f : A -> nat -> result B) (idx : nat) (l : list A)
  : result (list B) :=
  match l with
  | [] => Ok []
  | a :: r => b <- f a idx ;; bs <- map_from f (S idx) r ;; Ok (b :: bs)
  end.

(** A loop whose body may throw. *)
Fixpoint for_each {S I} (body : S -> I -> result S) (l : list I) (s : S)
  : result S :=
  match l with
  | [] => Ok s
  | i :: r => s' <- body s i ;; for_each body r s'
  end.

(** ** Constants and data (lines 8-39) *)

Inductive RoleKey := CLASS | VICE | GRADE | SUBJECT | PREP | MID | DEPT.

Definition RoleKey_eq_dec (a b : RoleKey) : {a = b} + {a <> b}.
Proof. decide equality. Defined.

(** The property names of [ROLE_INFO], in code units. *)
Definition key_string (r : RoleKey) : jsstring :=
  match r with
  | CLASS => [29677; 20027; 20219]            (* U+73ED U+4E3B U+4EFB *)
  | VICE => [21103; 29677; 20027; 20219]      (* U+526F U+73ED U+4E3B U+4EFB *)
  | GRADE => [24180; 32423; 32452; 38271]     (* U+5E74 U+7EA7 U+7EC4 U+957F *)
  | SUBJECT => [31185; 32452; 38271]          (* U+79D1 U+7EC4 U+957F *)
  | PREP => [22791; 35838; 32452; 38271]      (* U+5907 U+8BFE U+7EC4 U+957F *)
  | MID => [20013; 23618; 24178; 37096]       (* U+4E2D U+5C42 U+5E72 U+90E8 *)
  | DEPT => [23398; 31185; 20027; 20219]      (* U+5B66 U+79D1 U+4E3B U+4EFB *)
  end%N.

(** [Object.keys(ROLE_INFO)]: own keys in insertion order. *)
Definition Object_keys_ROLE_INFO : list RoleKey :=
  [CLASS; VICE; GRADE; SUBJECT; PREP; MID; DEPT].

(** The own property of [ROLE_INFO] (and of [roleState]) named [s]. *)
Definition own_key (s : jsstring) : option RoleKey :=
  find (fun r => string_eqb s (key_string r)) Object_keys_ROLE_INFO.

(** [ROLE_INFO] and [roleState] are object literals, so a lookup that misses
    the own keys continues into [Object.prototype], whose properties are all
    truthy objects or functions. *)
Definition Object_prototype_keys : list jsstring :=
  List.map units
    ["constructor"; "hasOwnProperty"; "isPrototypeOf"; "propertyIsEnumerable";
     "toLocaleString"; "toString"; "valueOf"; "__proto__";
     "__defineGetter__"; "__defineSetter__";
     "__lookupGetter__"; "__lookupSetter__"]%string.

Definition inherited_key (s : jsstring) : bool :=
  existsb (string_eqb s) Object_prototype_keys.

(** [Boolean(ROLE_INFO[s])]. *)
Definition ROLE_INFO_has (s : jsstring) : bool :=
  match own_key s with Some _ => true | None => inherited_key s end.

Module RoleInfo.
Record t (num : Type) := { caps : num; baselines : list num }.
Arguments caps {num} _.
Arguments baselines {num} _.
End RoleInfo.

Module RoleEntry.
Record t := { role : jsstring; start : jsstring; end_ : jsstring }.
End RoleEntry.

Module RoleState.
Record t (num : Type) := { score : num; monthsServed : Z; capped : bool }.
Arguments score {num} _.
Arguments monthsServed {num} _.
Arguments capped {num} _.
End RoleState.

Module MonthAllocation.
Record t (num : Type) := { role : RoleKey; weight : num; gain : num }.
Arguments role {num} _.
Arguments weight {num} _.
Arguments gain {num} _.
End MonthAllocation.

Module MonthDetail.
Record t (num : Type) :=
  { ym : jsstring; allocations : list (MonthAllocation.t num) }.
Arguments ym {num} _.
Arguments allocations {num} _.
End MonthDetail.

Module RoleSummary.
Record t (num : Type) :=
  { role : RoleKey; score : num; cap : num; capped : bool }.
Arguments role {num} _.
Arguments score {num} _.
Arguments cap {num} _.
Arguments capped {num} _.
End RoleSummary.

Module CalculationResult.
Record t (num : Type) :=
  { roleSummary : list (RoleSummary.t num);
    totalScore : num;
    monthDetails : list (MonthDetail.t num) }.
Arguments roleSummary {num} _.
Arguments totalScore {num} _.
Arguments monthDetails {num} _.
End CalculationResult.

(** A ranked candidate of one month (lines 67-72). *)
Module Candidate.
Record t (num : Type) :=
  { role : RoleKey; baselinePerMonth : num; remainingCap : num }.
Arguments role {num} _.
Arguments baselinePerMonth {num} _.
Arguments remainingCap {num} _.
End Candidate.

(** [ymToIndex] (lines 23-26). *)
Definition ymToIndex (dateStr : jsstring) : Z :=
  match split HYPHEN dateStr with
  | y :: m :: _ => Number y * 12 + (Number m - 1)
  | _ => 0
  end.

(** [indexToYM] (lines 28-32); [%] is the truncating remainder. *)
Definition indexToYM (index : Z) : jsstring :=
  let y := (index / 12)%Z in
  let m := (Z.rem index 12 + 1)%Z in
  String_of_Z y ++ [HYPHEN] ++ padStart2 (String_of_Z m).

(** [Math.min(...l)] and [Math.max(...l)] on integers; the empty spread
    gives an infinity. *)
Inductive extended := NegInfinity | Finite (z : Z) | PosInfinity.

Definition Math_min_of (l : list Z) : extended :=
  fold_left (fun acc z => match acc with
                          | Finite a => Finite (Z.min a z)
                          | _ => Finite z
                          end) l PosInfinity.

Definition Math_max_of (l : list Z) : extended :=
  fold_left (fun acc z => match acc with
                          | Finite a => Finite (Z.max a z)
                          | _ => Finite z
                          end) l NegInfinity.

(** ** The record parser (lines 42-50) *)

Definition lines_of (csvText : jsstring) : list jsstring :=
  filter truthy_string (List.map trim (split_lines csvText)).

Definition parse_line (line : jsstring) (idx : nat) : result RoleEntry.t :=
  match regex_match line with
  | None => Throw (ParseError (Z.of_nat idx + 1) line)
  | Some (role, start, end_) =>
      if negb (ROLE_INFO_has role) then Throw (UnknownRoleError role)
      else if string_lt end_ start then Throw (InvalidRangeError role)
      else Ok {| RoleEntry.role := role;
                 RoleEntry.start := start;
                 RoleEntry.end_ := end_ |}
  end.

Definition parse_entries (lines : list jsstring) : result (list RoleEntry.t) :=
  map_from parse_line 0 lines.

(** ** The allocation (lines 8-19 and 52-112), for any number type *)

Section Calculate.
Context {num : Type} {number : JSNumber num}.
Local Open Scope js_scope.

Import RoleState.

Definition ROLE_INFO (r : RoleKey) : RoleInfo.t num :=
  match r with
  | CLASS => {| RoleInfo.caps := lit 15; RoleInfo.baselines := [lit 1; lit 1.5] |}
  | VICE => {| RoleInfo.caps := lit 15; RoleInfo.baselines := [lit 0.5; lit 0.75] |}
  | GRADE => {| RoleInfo.caps := lit 15; RoleInfo.baselines := [lit 1; lit 1.5] |}
  | SUBJECT => {| RoleInfo.caps := lit 15; RoleInfo.baselines := [lit 1; lit 1.5] |}
  | PREP => {| RoleInfo.caps := lit 8; RoleInfo.baselines := [lit 0.5] |}
  | MID => {| RoleInfo.caps := lit 20; RoleInfo.baselines := [lit 1.2; lit 1.5] |}
  | DEPT => {| RoleInfo.caps := lit 15; RoleInfo.baselines := [lit 1; lit 1.5] |}
  end.

Definition WEIGHTS : list num :=
  [lit 1; lit 0.5; lit 0.25; lit 0.125; lit 0.0625].

Definition CLASS_VICE_COMBO_CAP : num := lit 15.

(** [roleState]: one running state per own key (line 56). *)
Definition RoleStates := RoleKey -> RoleState.t num.

Definition initial : RoleStates :=
  fun _ => {| score := lit 0; monthsServed := 0; capped := false |}.

Definition set (st : RoleStates) (r : RoleKey) (v : RoleState.t num) : RoleStates :=
  fun k => if RoleKey_eq_dec k r then v else st k.

Definition add_score (st : RoleStates) (r : RoleKey) (x : num) : RoleStates :=
  set st r {| score := score (st r) + x;
              monthsServed := monthsServed (st r);
              capped := capped (st r) |}.

Definition set_capped (st : RoleStates) (r : RoleKey) : RoleStates :=
  set st r {| score := score (st r);
              monthsServed := monthsServed (st r);
              capped := true |}.

(** [ymIdx >= ymToIndex(e.start) && ymIdx <= ymToIndex(e.end)] *)
Definition covers (ymIdx : Z) (e : RoleEntry.t) : bool :=
  ((ymToIndex (RoleEntry.start e) <=? ymIdx)
   && (ymIdx <=? ymToIndex (RoleEntry.end_ e)))%Z.

(** [!roleState[r].capped]; an inherited object has no [capped]. *)
Definition not_capped (st : RoleStates) (r : jsstring) : bool :=
  match own_key r with
  | Some k => negb (capped (st k))
  | None => true
  end.

(** Line 62. *)
Definition activeRoles (entries : list RoleEntry.t) (st : RoleStates)
    (ymIdx : Z) : list jsstring :=
  filter (not_capped st) (List.map RoleEntry.role (filter (covers ymIdx) entries)).

(** [roleState[r].monthsServed += 1] (line 65); on an inherited key the
    assignment lands on an object outside [roleState]'s own entries. *)
Definition serve (st : RoleStates) (r : jsstring) : RoleStates :=
  match own_key r with
  | Some k => set st k {| score := score (st k);
                          monthsServed := monthsServed (st k) + 1;
                          capped := capped (st k) |}
  | None => st
  end.

(** Lines 67-72; [info.baselines] is [undefined] off the own keys. *)
Definition candidate (st : RoleStates) (role : jsstring) (_ : nat)
  : result (Candidate.t num) :=
  match own_key role with
  | None => Throw TypeError
  | Some k =>
      let info := ROLE_INFO k in
      let monthsSrv := (monthsServed (st k) - 1)%Z in
      let tier :=
        if (72 <=? monthsSrv)%Z && (1 <? List.length (RoleInfo.baselines info))%nat
        then 1%nat else 0%nat in
      let baseline := nth tier (RoleInfo.baselines info) (lit 0) in
      Ok {| Candidate.role := k;
            Candidate.baselinePerMonth := baseline / lit 12;
            Candidate.remainingCap :=
              RoleInfo.caps info - score (st k) + lit (1 # 1000000000) |}
  end.

(** The comparator of line 74. *)
Definition by_rank (a b : Candidate.t num) : num :=
  let d := Candidate.baselinePerMonth b - Candidate.baselinePerMonth a in
  if truthy d then d
  else Candidate.remainingCap b - Candidate.remainingCap a.

(** [Array.prototype.sort] is stable; for a comparator that is a consistent
    ordering its result is the one of a stable insertion sort. *)
Fixpoint insert {A} (cmp : A -> A -> num) (x : A) (l : list A) : list A :=
  match l with
  | [] => [x]
  | y :: r => if lit 0 <? cmp x y then y :: insert cmp x r else x :: l
  end.

Definition sort {A} (cmp : A -> A -> num) (l : list A) : list A :=
  fold_right (insert cmp) [] l.

Definition linked (role : RoleKey) : bool :=
  match role with CLASS | VICE => true | _ => false end.

(** Lines 80-87: the raw gain, then the combined-cap clamp. *)
Definition combined_clamp (st : RoleStates) (role : RoleKey) (gain : num) : num :=
  if linked role then
    let comboUsed := score (st CLASS) + score (st VICE) in
    let remainingCombo := CLASS_VICE_COMBO_CAP - comboUsed in
    if remainingCombo <=? lit 0 then lit 0
    else Math_min gain remainingCombo
  else gain.

(** Line 89. *)
Definition allowable (st : RoleStates) (c : Candidate.t num) (weight : num) : num :=
  let role := Candidate.role c in
  let gain := Candidate.baselinePerMonth c * weight in
  let gain := combined_clamp st role gain in
  Math_min gain (RoleInfo.caps (ROLE_INFO role) - score (st role)).

(** Lines 92-102. *)
Definition update_capped (st : RoleStates) (role : RoleKey) : RoleStates :=
  let st :=
    if linked role then
      let comboAfter := score (st CLASS) + score (st VICE) in
      if comboAfter >=? CLASS_VICE_COMBO_CAP - lit (1 # 1000000) then
        set_capped (set_capped st CLASS) VICE
      else st
    else st in
  if score (st role) >=? RoleInfo.caps (ROLE_INFO role) - lit (1 # 1000000)
  then set_capped st role
  else st.

(** Lines 78-102: the state after one pass of the inner loop. *)
Definition commit (st : RoleStates) (c : Candidate.t num) (weight : num) : RoleStates :=
  update_capped (add_score st (Candidate.role c) (allowable st c weight))
                (Candidate.role c).

(** One pass of the inner loop (lines 77-105). *)
Definition allocate (acc : RoleStates * list (MonthAllocation.t num))
    (wc : num * Candidate.t num)
  : RoleStates * list (MonthAllocation.t num) :=
  let (st, allocations) := acc in
  let (weight, c) := wc in
  (commit st c weight,
   allocations ++ [{| MonthAllocation.role := Candidate.role c;
                      MonthAllocation.weight := weight;
                      MonthAllocation.gain := toFixed4 (allowable st c weight) |}]).

(** The inner loop runs while [w < WEIGHTS.length && w < candidates.length]. *)
Definition allocate_all (st : RoleStates) (candidates : list (Candidate.t num))
  : RoleStates * list (MonthAllocation.t num) :=
  fold_left allocate (combine WEIGHTS candidates) (st, []).

(** Lines 65-74: the counters of the active roles, then the candidates and
    their ranking. *)
Definition rank (st : RoleStates) (active : list jsstring)
  : result (RoleStates * list (Candidate.t num)) :=
  let st := fold_left serve active st in
  candidates <- map_from (candidate st) 0 active ;;
  Ok (st, sort by_rank candidates).

(** One pass of the month loop (lines 60-106) at month index [ymIdx]. *)
Definition month_step (entries : list RoleEntry.t)
    (acc : RoleStates * list (MonthDetail.t num)) (ymIdx : Z)
  : result (RoleStates * list (MonthDetail.t num)) :=
  let (st, monthDetails) := acc in
  let ymStr := indexToYM ymIdx in
  let active := activeRoles entries st ymIdx in
  match active with
  | [] => Ok acc
  | _ :: _ =>
      ' (st, candidates) <- rank st active ;;
      let (st, allocations) := allocate_all st candidates in
      Ok (st, monthDetails ++ [{| MonthDetail.ym := ymStr;
                                  MonthDetail.allocations := allocations |}])
  end.

(** The month indices [minYM + i] for [0 <= i < monthsTotal] (lines 52-60). *)
Definition month_indices (minYM maxYM : extended) : list Z :=
  match minYM, maxYM with
  | Finite lo, Finite hi =>
      List.map (fun i => lo + Z.of_nat i)%Z (seq 0 (Z.to_nat (hi - lo + 1)))
  | _, _ => []
  end.

Definition minYM (entries : list RoleEntry.t) : extended :=
  Math_min_of (List.map (fun e => ymToIndex (RoleEntry.start e)) entries).

Definition maxYM (entries : list RoleEntry.t) : extended :=
  Math_max_of (List.map (fun e => ymToIndex (RoleEntry.end_ e)) entries).

Definition walk (entries : list RoleEntry.t)
  : result (RoleStates * list (MonthDetail.t num)) :=
  for_each (month_step entries)
           (month_indices (minYM entries) (maxYM entries))
           (initial, []).

(** Line 109. *)
Definition summary (st : RoleStates) (r : RoleKey) : RoleSummary.t num :=
  {| RoleSummary.role := r;
     RoleSummary.score := toFixed4 (score (st r));
     RoleSummary.cap := RoleInfo.caps (ROLE_INFO r);
     RoleSummary.capped := capped (st r) |}.

(** Lines 109-111. *)
Definition aggregate (st : RoleStates) (monthDetails : list (MonthDetail.t num))
  : CalculationResult.t num :=
  let roleSummary := List.map (summary st) Object_keys_ROLE_INFO in
  let totalScore :=
    toFixed4 (fold_left (fun s r => s + RoleSummary.score r) roleSummary (lit 0)) in
  {| CalculationResult.roleSummary := roleSummary;
     CalculationResult.totalScore := totalScore;
     CalculationResult.monthDetails := monthDetails |}.

Definition calculate (csvText : jsstring) : result (CalculationResult.t num) :=
  entries <- parse_entries (lines_of csvText) ;;
  ' (st, monthDetails) <- walk entries ;;
  Ok (aggregate st monthDetails).

End Calculate.

(** ** Intermediate points and unrounded gains

    Instrumented views of the same walk, used to state what holds in the
    middle of a month and what the trace rounds away. *)

Section Instrumented.
Context {num : Type} {number : JSNumber num}.




(** The gains the inner loop commits, before rounding, in order. *)
Fixpoint raw_gains (st : RoleStates) (wcs : list (num * Candidate.t num))
  : list (RoleKey * num) :=
  match wcs with
  | [] => []
  | (weight, c) :: r =>
      (Candidate.role c, allowable st c weight)
        :: raw_gains (commit st c weight) r
  end.

(** The month loop, collecting the unrounded gains month by month. *)
Definition month_raw (entries : list RoleEntry.t)
    (acc : RoleStates * list (list (RoleKey * num))) (ymIdx : Z)
  : result (RoleStates * list (list (RoleKey * num))) :=
  let (st, raw) := acc in
  match activeRoles entries st ymIdx with
  | [] => Ok acc
  | active =>
      ' (st, candidates) <- rank st active ;;
      Ok (fst (allocate_all st candidates),
          raw ++ [raw_gains st (combine WEIGHTS candidates)])
  end.

Definition walk_raw (entries : list RoleEntry.t)
  : result (RoleStates * list (list (RoleKey * num))) :=
  for_each (month_raw entries)
           (month_indices (minYM entries) (maxYM entries))
           (initial, []).

(** The running sum [((0 + g1) + g2) + ...] of the gains of role [r]. *)
Definition gains_of (r : RoleKey) (raw : list (RoleKey * num)) : list num :=
  List.map snd (filter (fun g => if RoleKey_eq_dec (fst g) r then true else false) raw).

Definition accumulate (start : num) (gains : list num) : num :=
  fold_left jadd gains start.

End Instrumented.

(** ** Observations of a run *)

(** The value of a computation that did not throw. *)
Definition returned {A} (x : result A) (otherwise : A) : A :=
  match x with Ok a => a | Throw _ => otherwise end.

(** The score a result reports for role [k]. *)
Definition reported {num} `{JSNumber num} (r : CalculationResult.t num)
    (k : RoleKey) : num :=
  match find (fun s => if RoleKey_eq_dec (RoleSummary.role s) k then true else false)
             (CalculationResult.roleSummary r) with
  | Some s => RoleSummary.score s
  | None => lit 0
  end.

(** The month trace of a result as plain tuples. *)
Definition trace {num} (r : CalculationResult.t num)
  : list (jsstring * list (RoleKey * num * num)) :=
  List.map (fun d => (MonthDetail.ym d,
                      List.map (fun a => (MonthAllocation.role a,
                                          MonthAllocation.weight a,
                                          MonthAllocation.gain a))
                               (MonthDetail.allocations d)))
           (CalculationResult.monthDetails r).

(** A 4-decimal value as the result shows it. *)
Definition shown {num} `{JSNumber num} (x : Q) : num := toFixed4 (lit x).

(** The roles and gains of a trace, month by month. *)
Definition shown_gains {num} (r : CalculationResult.t num) : list (list (RoleKey * num)) :=
  List.map (fun d => List.map (fun a => (MonthAllocation.role a, MonthAllocation.gain a))
                              (MonthDetail.allocations d))
           (CalculationResult.monthDetails r).

(** The gains of a month as the trace shows them. *)
Definition rounded {num} `{JSNumber num} (gains : list (RoleKey * num))
  : list (RoleKey * num) :=
  List.map (fun g => (fst g, toFixed4 (snd g))) gains.

(** The sum of the running scores, in the order of the summaries. *)
Definition raw_total {num} `{JSNumber num} (st : RoleStates) : num :=
  fold_left jadd (List.map (fun k => RoleState.score (st k)) Object_keys_ROLE_INFO) (lit 0).

(** The state the walk over [entries] is in after its first [n] months. *)
Definition state_after {num} `{JSNumber num} (entries : list RoleEntry.t) (n : nat)
  : RoleStates :=
  fst (returned
         (for_each (month_step entries)
                   (firstn n (month_indices (minYM entries) (maxYM entries)))
                   (initial, []))
         (initial, [])).

(** A line the parser accepts: it matches the pattern, names a property of
    [ROLE_INFO], and its end date does not sort before its start date. *)
Definition valid_line (line : jsstring) : Prop :=
  exists role start end_,
    regex_match line = Some (role, start, end_)
    /\ ROLE_INFO_has role = true
    /\ string_lt end_ start = false.

(** What the month loop and its instrumented twin agree on: the state, the
    trace as the rounding of the gains, and each score as the running sum
    of the gains of its role. *)
Definition agrees {num} `{JSNumber num}
    (a : RoleStates * list (MonthDetail.t num))
    (b : RoleStates * list (list (RoleKey * num))) : Prop :=
  fst a = fst b
  /\ List.map (fun d => List.map (fun x => (MonthAllocation.role x, MonthAllocation.gain x))
                                 (MonthDetail.allocations d)) (snd a)
     = List.map rounded (snd b)
  /\ forall k, RoleState.score (fst a k)
               = accumulate (lit 0) (gains_of k (List.concat (snd b))).

(** ** Inputs used below *)

Definition newline : jsstring := [LF].

Definition quoted (s : jsstring) : jsstring := [QUOTE] ++ s ++ [QUOTE].

(** The line [Q role Q,Q start Q,Q end Q] with double quotes [Q]. *)
Definition record_line (r : RoleKey) (start end_ : string) : jsstring :=
  quoted (key_string r) ++ [COMMA] ++ quoted (units start)
    ++ [COMMA] ++ quoted (units end_).

(** The same fields without quotes. *)
Definition plain_line (role : jsstring) (start end_ : string) : jsstring :=
  role ++ [COMMA] ++ units start ++ [COMMA] ++ units end_.

(** Scenario 1 of the specification and the result it reports. *)
Definition scenario1 : jsstring := record_line CLASS "2020-01-01" "2020-01-31".

Definition scenario1_entries : list RoleEntry.t :=
  [{| RoleEntry.role := key_string CLASS;
      RoleEntry.start := units "2020-01-01";
      RoleEntry.end_ := units "2020-01-31" |}].

Definition idle_summary {num} `{JSNumber num} (r : RoleKey) : RoleSummary.t num :=
  {| RoleSummary.role := r;
     RoleSummary.score := lit 0;
     RoleSummary.cap := RoleInfo.caps (ROLE_INFO r);
     RoleSummary.capped := false |}.

Definition scenario1_result {num} `{JSNumber num} : CalculationResult.t num :=
  {| CalculationResult.roleSummary :=
       {| RoleSummary.role := CLASS;
          RoleSummary.score := lit 0.0833;
          RoleSummary.cap := lit 15;
          RoleSummary.capped := false |}
       :: List.map idle_summary [VICE; GRADE; SUBJECT; PREP; MID; DEPT];
     CalculationResult.totalScore := lit 0.0833;
     CalculationResult.monthDetails :=
       [{| MonthDetail.ym := units "2020-01";
           MonthDetail.allocations :=
             [{| MonthAllocation.role := CLASS;
                 MonthAllocation.weight := lit 1;
                 MonthAllocation.gain := lit 0.0833 |}] |}] |}.

(** What [calculate] returns on a text without records. *)
Definition empty_result {num} `{JSNumber num} : CalculationResult.t num :=
  {| CalculationResult.roleSummary := List.map idle_summary Object_keys_ROLE_INFO;
     CalculationResult.totalScore := lit 0;
     CalculationResult.monthDetails := [] |}.

(** Blank lines only. *)
Definition blank_input : jsstring := units "  " ++ newline ++ newline ++ [9%N; CR; LF].

(** A well-formed line with a role that is not defined, then a line that
    does not match the pattern. *)
Definition unknown_then_malformed : jsstring :=
  plain_line (units "teacher") "2020-01-01" "2020-01-31" ++ newline ++ units "garbage".

(** Two blank lines, then a line that does not match the pattern. *)
Definition blank_then_malformed : jsstring := newline ++ newline ++ units "garbage".

(** 班主任 in January 2020, 年级组长 in February 2020. *)
Definition two_months_input : jsstring :=
  record_line CLASS "2020-01-01" "2020-01-31" ++ newline
  ++ record_line GRADE "2020-02-01" "2020-02-29".

(** 班主任 in January and February 2020. *)
Definition two_month_class_input : jsstring :=
  record_line CLASS "2020-01-01" "2020-02-29".

(** The same role and the same month in two records. *)
Definition overlap_input : jsstring :=
  record_line CLASS "2020-01-01" "2020-01-31" ++ newline
  ++ record_line CLASS "2020-01-01" "2020-01-31".

Definition overlap_entries : list RoleEntry.t :=
  [{| RoleEntry.role := key_string CLASS;
      RoleEntry.start := units "2020-01-01";
      RoleEntry.end_ := units "2020-01-31" |};
   {| RoleEntry.role := key_string CLASS;
      RoleEntry.start := units "2020-01-01";
      RoleEntry.end_ := units "2020-01-31" |}].

(** 班主任 for 37 months, and a second 班主任 record over the last 36. *)
Definition tier_input : jsstring :=
  record_line CLASS "2000-01-01" "2003-01-31" ++ newline
  ++ record_line CLASS "2000-02-01" "2003-01-31".

Definition tier_entries : list RoleEntry.t :=
  [{| RoleEntry.role := key_string CLASS;
      RoleEntry.start := units "2000-01-01";
      RoleEntry.end_ := units "2003-01-31" |};
   {| RoleEntry.role := key_string CLASS;
      RoleEntry.start := units "2000-02-01";
      RoleEntry.end_ := units "2003-01-31" |}].



(** The records the page starts with (lines 115-122). *)
Definition sample_input : jsstring :=
  record_line CLASS "2006-09-01" "2010-08-31" ++ newline
  ++ record_line VICE "2010-09-01" "2011-08-31" ++ newline
  ++ record_line CLASS "2011-09-01" "2016-08-31" ++ newline
  ++ record_line GRADE "2014-09-01" "2019-08-31" ++ newline
  ++ record_line VICE "2016-09-01" "2020-08-31" ++ newline
  ++ record_line SUBJECT "2019-09-01" "2024-12-31" ++ newline
  ++ record_line CLASS "2020-09-01" "2021-08-31" ++ newline
  ++ record_line MID "2021-06-01" "2024-12-31".

(** ** Predicates over exact rationals *)





(** ** Further predicates and inputs *)




(** [l1] is [l2] with some elements left out. *)
Inductive subsequence {A : Type} : list A -> list A -> Prop :=
| subsequence_nil : subsequence [] []
| subsequence_skip x l1 l2 : subsequence l1 l2 -> subsequence l1 (x :: l2)
| subsequence_keep x l1 l2 : subsequence l1 l2 -> subsequence (x :: l1) (x :: l2).

(** The roles that have an allocation event in a month detail. *)
Definition roles_of {num} (d : MonthDetail.t num) : list RoleKey :=
  List.map MonthAllocation.role (MonthDetail.allocations d).

(** What a trace entry shows of the month index it was written at. *)
Definition listed {num} (entries : list RoleEntry.t) (d : MonthDetail.t num) (i : Z)
  : Prop :=
  MonthDetail.ym d = indexToYM i
  /\ (exists e, In e entries /\ covers i e = true)
  /\ (1 <= List.length (MonthDetail.allocations d) <= 5)%nat.



(** The year and month fields of a date of the shape [dddd-dd-dd]. *)
Definition year_of (d : jsstring) : Z := Number (firstn 4 d).
Definition month_of (d : jsstring) : Z := Number (firstn 2 (skipn 5 d)).

(** A code unit that is no double quote, no comma and no line terminator. *)
Definition plain (c : N) : bool :=
  negb (c =? QUOTE)%N && negb (c =? COMMA)%N && negb (isLineTerminator c).







(** * Properties *)

Unset Implicit Arguments.

(** Closed goals are settled by evaluation, one conjunct at a time. *)
Ltac conjuncts :=
  repeat match goal with
         | |- let _ := _ in _ => intro
         | |- _ /\ _ => split
         end.

Ltac evaluate := conjuncts; vm_compute; reflexivity.

(** ** The model on small inputs *)

Example split_lines_example :
  split_lines (units "a" ++ [CR; LF] ++ units "b" ++ [LF; CR])
  = [units "a"; units "b"; [CR]].
Proof. vm_compute. reflexivity. Qed.

Example lines_of_example :
  lines_of (units " a " ++ [LF; LF; 9%N; CR; LF] ++ units "b") = [units "a"; units "b"].
Proof. vm_compute. reflexivity. Qed.

Example match_quoted :
  regex_match (record_line CLASS "2020-01-01" "2020-01-31")
  = Some (key_string CLASS, units "2020-01-01", units "2020-01-31").
Proof. vm_compute. reflexivity. Qed.

(** Quotes are optional, blanks may follow a comma, the pattern is not
    anchored at the end of the line. *)
Example match_plain :
  regex_match (key_string CLASS ++ units ", 2020-01-01,  2020-01-31 and more")
  = Some (key_string CLASS, units "2020-01-01", units "2020-01-31").
Proof. vm_compute. reflexivity. Qed.

(** A blank before a comma stays in the captured role. *)
Example match_blank_before_comma :
  regex_match (units "x ,2020-01-01,2020-01-31")
  = Some (units "x ", units "2020-01-01", units "2020-01-31").
Proof. vm_compute. reflexivity. Qed.

Example match_short_month : regex_match (units "x,2020-1-01,2020-01-31") = None.
Proof. vm_compute. reflexivity. Qed.

Example ymToIndex_example : ymToIndex (units "2020-01-31") = 24240%Z.
Proof. vm_compute. reflexivity. Qed.

Example indexToYM_example : indexToYM 24251 = units "2020-12".
Proof. vm_compute. reflexivity. Qed.

Example unknown_role_example :
  calculate (num := Q) (plain_line (units "teacher") "2020-01-01" "2020-01-31")
  = Throw (UnknownRoleError (units "teacher")).
Proof. vm_compute. reflexivity. Qed.

Example reversed_dates_example :
  calculate (num := Q) (record_line CLASS "2020-02-01" "2020-01-31")
  = Throw (InvalidRangeError (key_string CLASS)).
Proof. vm_compute. reflexivity. Qed.

(** A property name of [Object.prototype] passes the role check and fails
    at [info.baselines[0]]. *)
Example inherited_key_example :
  calculate (num := Q) (plain_line (units "constructor") "2020-01-01" "2020-01-31")
  = Throw TypeError.
Proof. vm_compute. reflexivity. Qed.

(** Ties of [toFixed] go up, in both arithmetics. *)
Example toFixed4_tie :
  toFixed4 (1 # 32) == 0.0313 /\ toFixed4 (lit (num := float) (1 # 32)) = lit 0.0313.
Proof. evaluate. Qed.

Example toFixed4_binary64 :
  toFixed4 (jdiv (lit (num := float) 1) (lit 12)) = lit 0.0833
  /\ jadd (lit (num := float) 0.1) (lit 0.2) = lit 0.30000000000000004.
Proof. evaluate. Qed.

(** On the records the page starts with, the two arithmetics report the
    same scores and the same total. *)
Example sample_input_reports :
  let rq := returned (calculate (num := Q) sample_input) empty_result in
  let rf := returned (calculate (num := float) sample_input) empty_result in
  calculate sample_input = Ok rq
  /\ calculate sample_input = Ok rf
  /\ List.map (reported rf) Object_keys_ROLE_INFO
     = List.map (fun k => lit (reported rq k)) Object_keys_ROLE_INFO
  /\ CalculationResult.totalScore rf = lit (CalculationResult.totalScore rq)
  /\ List.map fst (trace rf) = List.map fst (trace rq).
Proof. evaluate. Qed.

(** ** Loops and throws *)

Section Loops.
Context {S I : Type}.
Variable body : S -> I -> result S.

(** An invariant of the body is an invariant of the loop. *)
Lemma for_each_invariant (P : S -> Prop) :
  (forall s i s', P s -> body s i = Ok s' -> P s') ->
  forall l s s', P s -> for_each body l s = Ok s' -> P s'.
Proof.
  intros step l; induction l as [|i l IH]; intros s s' Hs; simpl.
  - intros [= <-]; exact Hs.
  - destruct (body s i) as [s1|e] eqn:E; simpl; [|discriminate].
    apply IH. eapply step; eauto.
Qed.

(** A loop throws only what its body throws. *)
Lemma for_each_throws (E : error -> Prop) :
  (forall s i e, body s i = Throw e -> E e) ->
  forall l s e, for_each body l s = Throw e -> E e.
Proof.
  intros step l; induction l as [|i l IH]; intros s e; simpl; [discriminate|].
  destruct (body s i) as [s1|e1] eqn:B; simpl.
  - apply IH.
  - intros [= <-]. eapply step; eauto.
Qed.
End Loops.


Lemma map_from_Forall {A B} (f : A -> nat -> result B) (P : B -> Prop) :
  (forall a i b, f a i = Ok b -> P b) ->
  forall l i bs, map_from f i l = Ok bs -> Forall P bs.
Proof.
  intros Hf l; induction l as [|a l IH]; intros i bs; simpl.
  - intros [= <-]; constructor.
  - destruct (f a i) as [b|e] eqn:Fa; simpl; [|discriminate].
    destruct (map_from f (Datatypes.S i) l) as [bs'|e] eqn:Fl; simpl; [|discriminate].
    intros [= <-]. constructor; eauto.
Qed.

(** ** The parser *)

(** [parse_line] accepts exactly the valid lines. *)
Lemma parse_line_Ok (line : jsstring) (idx : nat) :
  (exists e, parse_line line idx = Ok e) <-> valid_line line.
Proof.
  unfold parse_line, valid_line. split.
  - intros [e He]. destruct (regex_match line) as [[[role start] end_]|]; [|discriminate].
    exists role, start, end_.
    destruct (ROLE_INFO_has role); simpl in He; [|discriminate].
    destruct (string_lt end_ start); [discriminate|]. auto.
  - intros (role & start & end_ & -> & -> & ->). simpl. eauto.
Qed.

(** [parse_line] reports a malformed line exactly when the pattern fails. *)
Lemma parse_line_ParseError (line : jsstring) (idx : nat) (k : Z) (l : jsstring) :
  parse_line line idx = Throw (ParseError k l) <->
  regex_match line = None /\ k = (Z.of_nat idx + 1)%Z /\ l = line.
Proof.
  unfold parse_line. split.
  - destruct (regex_match line) as [[[role start] end_]|].
    + destruct (ROLE_INFO_has role); simpl; [|discriminate].
      destruct (string_lt end_ start); discriminate.
    + intros [= <- <-]. auto.
  - intros (-> & -> & ->). reflexivity.
Qed.

(** The parser stops at the first line it rejects. *)
Lemma map_from_parse_ParseError (lines : list jsstring) (i : nat) (k : Z) (line : jsstring) :
  map_from parse_line i lines = Throw (ParseError k line) <->
  exists good rest,
    lines = good ++ line :: rest
    /\ k = (Z.of_nat (i + List.length good) + 1)%Z
    /\ regex_match line = None
    /\ Forall valid_line good.
Proof.
  split.
  - revert i; induction lines as [|l lines IH]; intros i; simpl; [discriminate|].
    destruct (parse_line l i) as [e|err] eqn:P; simpl.
    + destruct (map_from parse_line (Datatypes.S i) lines) as [es|err] eqn:M;
        simpl; [discriminate|].
      intros [= ->]. apply IH in M as (good & rest & -> & -> & Hm & Hg).
      exists (l :: good), rest. repeat split; auto.
      * simpl. f_equal. lia.
      * constructor; auto. apply (parse_line_Ok l i); eauto.
    + intros [= ->]. apply parse_line_ParseError in P as (Hm & -> & ->).
      exists [], lines. repeat split; auto. simpl. f_equal. lia.
  - intros (good & rest & -> & -> & Hm & Hg).
    revert i; induction Hg as [|g good V Hg IH]; intros i; simpl.
    + unfold parse_line. rewrite Hm. simpl. do 2 f_equal. lia.
    + apply (parse_line_Ok g i) in V as [e ->]. simpl.
      rewrite IH. simpl. do 2 f_equal. lia.
Qed.

Lemma map_from_throws {A B} (f : A -> nat -> result B) (E : error -> Prop) :
  (forall a i e, f a i = Throw e -> E e) ->
  forall l i e, map_from f i l = Throw e -> E e.
Proof.
  intros Hf l; induction l as [|a l IH]; intros i e; simpl; [discriminate|].
  destruct (f a i) as [b|e1] eqn:Fa; simpl.
  - destruct (map_from f (Datatypes.S i) l) as [bs|e2] eqn:Fl; simpl; [discriminate|].
    intros [= <-]. eauto.
  - intros [= <-]. eauto.
Qed.

(** ** Shape of a run, for any number type *)

Section Shape.
Context {num : Type} {number : JSNumber num}.

(** The walk can only fail on a property read off an inherited key. *)
Lemma rank_throws (st : RoleStates) (active : list jsstring) (e : error) :
  rank st active = Throw e -> e = TypeError.
Proof.
  unfold rank.
  destruct (map_from _ 0 active) as [cs|e1] eqn:M; simpl; [discriminate|].
  intros [= <-].
  revert M. apply map_from_throws with (E := fun e => e = TypeError).
  intros a i e. unfold candidate. destruct (own_key a); [discriminate|].
  now intros [= <-].
Qed.

Lemma month_step_throws (entries : list RoleEntry.t)
    (acc : RoleStates * list (MonthDetail.t num)) (ymIdx : Z) (e : error) :
  month_step entries acc ymIdx = Throw e -> e = TypeError.
Proof.
  unfold month_step. destruct acc as [st md].
  destruct (activeRoles entries st ymIdx) as [|a active]; [discriminate|].
  destruct (rank st (a :: active)) as [[st1 cs]|e1] eqn:R; simpl.
  - destruct (allocate_all st1 cs); discriminate.
  - intros [= <-]. eapply rank_throws; eauto.
Qed.

Lemma walk_throws (entries : list RoleEntry.t) (e : error) :
  walk entries = Throw e -> e = TypeError.
Proof.
  unfold walk. apply for_each_throws with (E := fun e => e = TypeError).
  intros s i e'. apply month_step_throws.
Qed.

(** A successful [calculate] is a successful parse, a successful walk and
    the aggregation of its final state. *)
Lemma calculate_Ok (csvText : jsstring) (r : CalculationResult.t num) :
  calculate csvText = Ok r <->
  exists entries st monthDetails,
    parse_entries (lines_of csvText) = Ok entries
    /\ walk entries = Ok (st, monthDetails)
    /\ r = aggregate st monthDetails.
Proof.
  unfold calculate. split.
  - destruct (parse_entries (lines_of csvText)) as [entries|e]; simpl; [|discriminate].
    destruct (walk entries) as [[st md]|e] eqn:W; simpl; [|discriminate].
    intros [= <-]. exists entries, st, md. auto.
  - intros (entries & st & md & -> & W & ->). simpl. rewrite W. reflexivity.
Qed.

(** A [ParseError] of [calculate] is one of the parser. *)
Lemma calculate_ParseError (csvText : jsstring) (k : Z) (line : jsstring) :
  calculate (num := num) csvText = Throw (ParseError k line) <->
  parse_entries (lines_of csvText) = Throw (ParseError k line).
Proof.
  unfold calculate.
  destruct (parse_entries (lines_of csvText)) as [entries|e]; simpl;
    [|split; intros [= ->]; reflexivity].
  destruct (walk entries) as [[st md]|e] eqn:W; simpl.
  - split; discriminate.
  - apply walk_throws in W as ->. split; discriminate.
Qed.

End Shape.

(** ** Scores and flags, for any number type *)

Section Scores.
Context {num : Type} {number : JSNumber num}.
Import RoleState.
Local Abbreviation states := (RoleStates (num := num)).

Lemma score_set_capped (st : states) (r k : RoleKey) :
  score (set_capped st r k) = score (st k).
Proof.
  unfold set_capped, set. destruct (RoleKey_eq_dec k r); subst; reflexivity.
Qed.

(** The capped flags never touch a score. *)
Lemma score_update_capped (st : states) (role k : RoleKey) :
  score (update_capped st role k) = score (st k).
Proof.
  unfold update_capped.
  repeat match goal with
         | |- context [if ?b then _ else _] => destruct b
         end; rewrite ?score_set_capped; reflexivity.
Qed.

Lemma score_add_score (st : states) (r k : RoleKey) (x : num) :
  score (add_score st r x k)
  = if RoleKey_eq_dec k r then jadd (score (st r)) x else score (st k).
Proof.
  unfold add_score, set. destruct (RoleKey_eq_dec k r); reflexivity.
Qed.

(** One inner pass adds the allowable gain, unrounded, to the score of the
    candidate's role and leaves every other score alone. *)
Lemma score_commit (st : states) (c : Candidate.t num) (w : num) (k : RoleKey) :
  score (commit st c w k)
  = if RoleKey_eq_dec k (Candidate.role c)
    then jadd (score (st (Candidate.role c))) (allowable st c w)
    else score (st k).
Proof. unfold commit. rewrite score_update_capped. apply score_add_score. Qed.

Lemma score_serve (st : states) (r : jsstring) (k : RoleKey) :
  score (serve st r k) = score (st k).
Proof.
  unfold serve. destruct (own_key r) as [k'|]; [|reflexivity].
  unfold set. destruct (RoleKey_eq_dec k k'); subst; reflexivity.
Qed.

Lemma score_fold_serve (active : list jsstring) (st : states) (k : RoleKey) :
  score (fold_left serve active st k) = score (st k).
Proof.
  revert st; induction active as [|r active IH]; intros st; simpl; [reflexivity|].
  rewrite IH. apply score_serve.
Qed.

(** [allocate] threads [commit] through the state. *)
Lemma fst_allocate (acc : states * list (MonthAllocation.t num))
    (wc : num * Candidate.t num) :
  fst (allocate acc wc) = commit (fst acc) (snd wc) (fst wc).
Proof. destruct acc, wc; reflexivity. Qed.

(** [sort] permutes its argument, whatever the comparator. *)
Lemma insert_perm {A} (cmp : A -> A -> num) (x : A) (l : list A) :
  Permutation (insert cmp x l) (x :: l).
Proof.
  induction l as [|y l IH]; simpl; [reflexivity|].
  destruct (jlt (lit 0) (cmp x y)); [|reflexivity].
  rewrite IH. apply perm_swap.
Qed.

Lemma sort_perm {A} (cmp : A -> A -> num) (l : list A) :
  Permutation (sort cmp l) l.
Proof.
  induction l as [|x l IH]; simpl; [reflexivity|].
  rewrite insert_perm. now constructor.
Qed.

Lemma sort_Forall {A} (cmp : A -> A -> num) (P : A -> Prop) (l : list A) :
  Forall P l -> Forall P (sort cmp l).
Proof.
  intros H. eapply Permutation_Forall; [|exact H].
  symmetry. apply sort_perm.
Qed.

End Scores.



(** ** Exact rationals: arithmetic facts *)








(** ** The caps along the walk, over exact rationals *)

Section Caps.
Import RoleState.
Local Abbreviation states := (RoleStates (num := Q)).

















End Caps.

(** ** The combined cap (C1) and the individual caps (C2) *)

Section CapTheorems.
Import RoleState.
Local Abbreviation states := (RoleStates (num := Q)).




End CapTheorems.






(** ** Empty input (C3) *)

(** C3, counterexample.  On the empty text [calculate] throws nothing: it
    returns a result with seven idle summaries, total 0 and no month. *)
Lemma empty_text_is_accepted :
  calculate (num := Q) [] = Ok empty_result
  /\ calculate (num := float) [] = Ok empty_result.
Proof. evaluate. Qed.

(** C3, as amended.  When the text holds no record (it is empty or has
    blank lines only), [calculate] raises no error and returns the result
    with one summary per defined role, each with score 0 and not capped,
    total score 0 and no month detail. *)
Theorem no_record_gives_empty_result :
  forall csvText : jsstring,
    lines_of csvText = [] ->
    calculate (num := Q) csvText = Ok empty_result
    /\ calculate (num := float) csvText = Ok empty_result.
Proof.
  intros csvText H. unfold calculate. rewrite H.
  split; vm_compute; reflexivity.
Qed.

Lemma no_record_gives_empty_result_witness :
  lines_of blank_input = []
  /\ calculate (num := Q) blank_input = Ok empty_result
  /\ calculate (num := float) blank_input = Ok empty_result.
Proof.
  split; [reflexivity|].
  apply (no_record_gives_empty_result blank_input). reflexivity.
Defined.

(** ** Malformed lines (C8) *)

(** C8, counterexample.  In [unknown_then_malformed] the second line does
    not match the pattern, yet the error names the unknown role of the
    first line; in [blank_then_malformed] the malformed line is the third
    line of the text and the error names line 1. *)
Lemma malformed_line_not_always_reported :
  regex_match (units "garbage") = None
  /\ calculate (num := Q) unknown_then_malformed
     = Throw (UnknownRoleError (units "teacher"))
  /\ calculate (num := Q) blank_then_malformed
     = Throw (ParseError 1 (units "garbage")).
Proof. evaluate. Qed.

(** C8, as amended.  [calculate] fails with a ParseError naming [k] and
    [line] exactly when [line] is the [k]-th non-blank line of the text
    (trimmed, counted from 1), it does not match the pattern, and every
    non-blank line before it is accepted by the parser; then no result is
    produced. *)
Theorem ParseError_iff_first_rejected_line_is_malformed :
  forall (num : Type) (number : JSNumber num)
         (csvText : jsstring) (k : Z) (line : jsstring),
    (calculate (num := num) csvText = Throw (ParseError k line) <->
     exists good rest,
       lines_of csvText = good ++ line :: rest
       /\ k = (Z.of_nat (List.length good) + 1)%Z
       /\ regex_match line = None
       /\ Forall valid_line good)
    /\ (calculate (num := num) csvText = Throw (ParseError k line) ->
        forall r, calculate (num := num) csvText <> Ok r).
Proof.
  intros num number csvText k line. split.
  - rewrite calculate_ParseError. unfold parse_entries.
    rewrite map_from_parse_ParseError. reflexivity.
  - intros -> r. discriminate.
Qed.

Lemma ParseError_iff_first_rejected_line_is_malformed_witness :
  calculate (num := Q) blank_then_malformed = Throw (ParseError 1 (units "garbage"))
  /\ forall r, calculate (num := Q) blank_then_malformed <> Ok r.
Proof.
  assert (H : calculate (num := Q) blank_then_malformed
              = Throw (ParseError 1 (units "garbage")))
    by (vm_compute; reflexivity).
  split; [exact H|].
  exact (proj2 (ParseError_iff_first_rejected_line_is_malformed
                  Q Q_number blank_then_malformed 1 (units "garbage")) H).
Defined.

(** ** Scenario 1 (C9) *)

(** C9.  On the single record of scenario 1, [calculate] returns
    [scenario1_result], in exact and in binary64 arithmetic: one month,
    2020-01, with one allocation of weight 1 to 班主任, reported score
    0.0833 and not capped.  The walk leaves 班主任 with one month served
    and the unrounded score 1/12, the first baseline 1 divided by 12. *)
Theorem scenario1_run :
  calculate (num := Q) scenario1 = Ok scenario1_result
  /\ calculate (num := float) scenario1 = Ok scenario1_result
  /\ parse_entries (lines_of scenario1) = Ok scenario1_entries
  /\ (let st := fst (returned (walk (num := Q) scenario1_entries) (initial, [])) in
      RoleState.score (st CLASS) == 1 # 12
      /\ RoleState.monthsServed (st CLASS) = 1%Z
      /\ RoleState.capped (st CLASS) = false)
  /\ nth 0 (RoleInfo.baselines (ROLE_INFO (num := Q) CLASS)) 0 == 1
  /\ Q_toFixed4 (1 # 12) = 0.0833.
Proof. evaluate. Qed.

(** ** Aggregation (C7) *)

Lemma fold_left_map_score {num} `{JSNumber num} (l : list (RoleSummary.t num)) (z : num) :
  fold_left (fun s r => jadd s (RoleSummary.score r)) l z
  = fold_left jadd (List.map RoleSummary.score l) z.
Proof. revert z; induction l as [|a l IH]; intros z; simpl; auto. Qed.

(** C7.  For every accepted input, in any arithmetic: the result holds one
    summary per defined role, in the order of the role table; each summary
    score is the running score of its role rounded to 4 decimals; and the
    total is the 4-decimal rounding of the sum of those rounded scores.
    On [two_months_input] that total, 0.1666, differs from the rounding of
    the sum of the running scores, 0.1667. *)
Theorem total_is_rounded_sum_of_rounded_scores :
  (forall (num : Type) (number : JSNumber num)
          (csvText : jsstring) (r : CalculationResult.t num),
      calculate csvText = Ok r ->
      List.map RoleSummary.role (CalculationResult.roleSummary r)
      = [CLASS; VICE; GRADE; SUBJECT; PREP; MID; DEPT]
      /\ (exists entries st monthDetails,
             parse_entries (lines_of csvText) = Ok entries
             /\ walk entries = Ok (st, monthDetails)
             /\ forall s, In s (CalculationResult.roleSummary r) ->
                  RoleSummary.score s
                  = toFixed4 (RoleState.score (st (RoleSummary.role s))))
      /\ CalculationResult.totalScore r
         = toFixed4 (fold_left jadd
                       (List.map RoleSummary.score (CalculationResult.roleSummary r))
                       (lit 0)))
  /\ (let r := returned (calculate (num := Q) two_months_input) empty_result in
      let st := fst (returned (walk (num := Q)
                       (returned (parse_entries (lines_of two_months_input)) []))
                       (initial, [])) in
      calculate two_months_input = Ok r
      /\ CalculationResult.totalScore r == 0.1666
      /\ toFixed4 (raw_total st) == 0.1667)
  /\ (let r := returned (calculate (num := float) two_months_input) empty_result in
      let st := fst (returned (walk (num := float)
                       (returned (parse_entries (lines_of two_months_input)) []))
                       (initial, [])) in
      calculate two_months_input = Ok r
      /\ CalculationResult.totalScore r = lit 0.1666
      /\ toFixed4 (raw_total st) = lit 0.1667).
Proof.
  split; [|split; evaluate].
  intros num number csvText r H.
  apply calculate_Ok in H as (entries & st & md & P & W & ->).
  split; [reflexivity|]. split.
  - exists entries, st, md. repeat split; auto.
    simpl. intros s Hs.
    repeat (destruct Hs as [<-|Hs]; [reflexivity|]). destruct Hs.
  - unfold aggregate. cbn [CalculationResult.totalScore CalculationResult.roleSummary].
    now rewrite fold_left_map_score.
Qed.

Lemma total_is_rounded_sum_of_rounded_scores_witness :
  calculate (num := Q) scenario1 = Ok scenario1_result
  /\ CalculationResult.totalScore (scenario1_result (num := Q))
     = toFixed4 (fold_left jadd
                   (List.map RoleSummary.score
                      (CalculationResult.roleSummary (scenario1_result (num := Q))))
                   (lit 0)).
Proof.
  assert (H : calculate (num := Q) scenario1 = Ok scenario1_result)
    by (vm_compute; reflexivity).
  split; [exact H|].
  exact (proj2 (proj2 (proj1 total_is_rounded_sum_of_rounded_scores
                         Q Q_number scenario1 scenario1_result H))).
Defined.

(** ** Overlapping records of one role (C4, C5) *)

Lemma own_key_key_string (k : RoleKey) : own_key (key_string k) = Some k.
Proof. destruct k; reflexivity. Qed.

Lemma own_key_Some (r : jsstring) (k : RoleKey) :
  own_key r = Some k -> r = key_string k.
Proof.
  unfold own_key. intros H. apply find_some in H as [_ H].
  unfold string_eqb in H. now destruct (list_eq_dec N.eq_dec r (key_string k)).
Qed.

Section Served.
Context {num : Type} {number : JSNumber num}.
Import RoleState.
Local Abbreviation states := (RoleStates (num := num)).

Lemma monthsServed_serve (st : states) (r : jsstring) (k : RoleKey) :
  monthsServed (serve st r k)
  = (monthsServed (st k)
     + if list_eq_dec N.eq_dec r (key_string k) then 1 else 0)%Z.
Proof.
  unfold serve. destruct (own_key r) as [k'|] eqn:O.
  - apply own_key_Some in O as ->. unfold set.
    destruct (RoleKey_eq_dec k k') as [->|D].
    + destruct (list_eq_dec N.eq_dec (key_string k') (key_string k')); [reflexivity|congruence].
    + destruct (list_eq_dec N.eq_dec (key_string k') (key_string k)) as [E|]; [|lia].
      exfalso. apply D.
      pose proof (own_key_key_string k) as A. rewrite <- E, own_key_key_string in A.
      congruence.
  - destruct (list_eq_dec N.eq_dec r (key_string k)) as [->|]; [|lia].
    rewrite own_key_key_string in O. discriminate.
Qed.

(** Line 65 adds to the counter of a role one per active record of it. *)
Lemma monthsServed_fold_serve (active : list jsstring) (st : states) (k : RoleKey) :
  monthsServed (fold_left serve active st k)
  = (monthsServed (st k)
     + Z.of_nat (count_occ (list_eq_dec N.eq_dec) active (key_string k)))%Z.
Proof.
  revert st; induction active as [|r active IH]; intros st; simpl; [lia|].
  rewrite IH, monthsServed_serve.
  destruct (list_eq_dec N.eq_dec r (key_string k)); lia.
Qed.

(** The tier line 70 picks: it reads the counter after line 65 and takes 1
    off, which is the count before this month only for a role with a
    single active record. *)
Lemma candidate_tier (st st1 : states) (active : list jsstring)
    (cs : list (Candidate.t num)) :
  rank st active = Ok (st1, cs) ->
  Forall (fun c =>
            let k := Candidate.role c in
            let prior := monthsServed (st k) in
            let records := Z.of_nat (count_occ (list_eq_dec N.eq_dec) active (key_string k)) in
            Candidate.baselinePerMonth c
            = jdiv (nth (if (72 <=? prior + records - 1)%Z
                            && (1 <? List.length (RoleInfo.baselines (ROLE_INFO k)))%nat
                         then 1 else 0)
                        (RoleInfo.baselines (ROLE_INFO k)) (lit 0))
                   (lit 12)) cs.
Proof.
  unfold rank.
  destruct (map_from _ 0 active) as [cs0|e] eqn:M; simpl; [|discriminate].
  intros [= <- <-]. apply sort_Forall. revert M. apply map_from_Forall.
  intros r i c. unfold candidate. destruct (own_key r) as [k|]; [|discriminate].
  intros [= <-]. cbn [Candidate.role Candidate.baselinePerMonth].
  now rewrite monthsServed_fold_serve.
Qed.

End Served.

(** C4, at the failing input.  Two records put 班主任 in January 2020:
    line 62 keeps both, so the role is active twice, its counter goes from
    0 to 2 in that one month, and it takes the ranks of weight 1 and 0.5,
    for a reported score of 0.125 instead of 0.0833. *)
Theorem overlapping_records_counted_twice :
  parse_entries (lines_of overlap_input) = Ok overlap_entries
  /\ activeRoles (num := Q) overlap_entries initial (ymToIndex (units "2020-01-01"))
     = [key_string CLASS; key_string CLASS]
  /\ RoleState.monthsServed (state_after (num := Q) overlap_entries 1 CLASS) = 2%Z
  /\ (let r := returned (calculate (num := Q) overlap_input) empty_result in
      calculate overlap_input = Ok r
      /\ trace r = [(units "2020-01",
                     [(CLASS, lit 1, shown 0.0833); (CLASS, lit 0.5, shown 0.0417)])]
      /\ reported r CLASS = shown 0.125)
  /\ (let r := returned (calculate (num := float) overlap_input) empty_result in
      calculate overlap_input = Ok r
      /\ trace r = [(units "2020-01",
                     [(CLASS, lit 1, shown 0.0833); (CLASS, lit 0.5, shown 0.0417)])]
      /\ reported r CLASS = shown 0.125).
Proof. evaluate. Qed.

(** C5, at the failing input.  Before January 2003, the 37th month of
    [tier_input], 班主任 has served 71 months; two records are active, the
    counter goes to 73, line 69 reads 72, and the second baseline 1.5 is
    used: the month allocates 0.125 and 0.0625 where the first baseline
    gives 0.0833 and 0.0417. *)
Theorem tier_read_after_double_increment :
  parse_entries (lines_of tier_input) = Ok tier_entries
  /\ (let before := state_after (num := Q) tier_entries 36 in
      let active := activeRoles tier_entries before (ymToIndex (units "2003-01-01")) in
      RoleState.monthsServed (before CLASS) = 71%Z
      /\ active = [key_string CLASS; key_string CLASS]
      /\ Forall (fun c => Candidate.baselinePerMonth c == 1.5 / 12)
                (snd (returned (rank before active) (before, []))))
  /\ (let r := returned (calculate (num := Q) tier_input) empty_result in
      calculate tier_input = Ok r
      /\ nth 36 (trace r) ([], [])
         = (units "2003-01",
            [(CLASS, lit 1, shown 0.125); (CLASS, lit 0.5, shown 0.0625)]))
  /\ (let r := returned (calculate (num := float) tier_input) empty_result in
      calculate tier_input = Ok r
      /\ nth 36 (trace r) ([], [])
         = (units "2003-01",
            [(CLASS, lit 1, shown 0.125); (CLASS, lit 0.5, shown 0.0625)])).
Proof.
  conjuncts; try (vm_compute; reflexivity).
  vm_compute. repeat constructor.
Qed.

(** ** Ranking and weights (C6) *)

Section Ranking.
Import RoleState.
Local Abbreviation states := (RoleStates (num := Q)).






End Ranking.

Section Slots.
Context {num : Type} {number : JSNumber num}.
Import RoleState.
Local Abbreviation states := (RoleStates (num := num)).

Lemma candidates_of_active (st : states) (active : list jsstring) (i : nat)
    (cs : list (Candidate.t num)) :
  map_from (candidate st) i active = Ok cs ->
  List.map (fun c => key_string (Candidate.role c)) cs = active
  /\ Forall (fun c =>
               Candidate.remainingCap c
               = jadd (jsub (RoleInfo.caps (ROLE_INFO (Candidate.role c)))
                            (score (st (Candidate.role c))))
                      (lit (1 # 1000000000))) cs.
Proof.
  revert i cs; induction active as [|r active IH]; intros i cs; simpl.
  - intros [= <-]. split; constructor.
  - unfold candidate at 1. destruct (own_key r) as [k|] eqn:O; simpl; [|discriminate].
    destruct (map_from (candidate st) (Datatypes.S i) active) as [cs'|e] eqn:M;
      simpl; [|discriminate].
    intros [= <-]. destruct (IH _ _ M) as [E F]. simpl. split.
    + rewrite E. f_equal. symmetry. now apply own_key_Some.
    + constructor; [reflexivity|exact F].
Qed.

(** The log of the inner loop pairs the weights with the candidates in
    order, as far as the shorter of the two lists goes. *)
Lemma allocations_of_fold (wcs : list (num * Candidate.t num))
    (acc : states * list (MonthAllocation.t num)) :
  List.map (fun a => (MonthAllocation.weight a, MonthAllocation.role a))
           (snd (fold_left allocate wcs acc))
  = List.map (fun a => (MonthAllocation.weight a, MonthAllocation.role a)) (snd acc)
    ++ List.map (fun wc => (fst wc, Candidate.role (snd wc))) wcs.
Proof.
  revert acc; induction wcs as [|[w c] wcs IH]; intros [st log]; simpl.
  - now rewrite app_nil_r.
  - rewrite IH. simpl. rewrite List.map_app, <- app_assoc. reflexivity.
Qed.


(** A role without a candidate among the passes keeps its score. *)
Lemma score_fold_allocate_other (wcs : list (num * Candidate.t num))
    (acc : states * list (MonthAllocation.t num)) (k : RoleKey) :
  ~ In k (List.map (fun wc => Candidate.role (snd wc)) wcs) ->
  score (fst (fold_left allocate wcs acc) k) = score (fst acc k).
Proof.
  revert acc; induction wcs as [|wc wcs IH]; intros acc H; simpl; [reflexivity|].
  rewrite IH by (intros X; apply H; now right).
  rewrite fst_allocate, score_commit.
  destruct (RoleKey_eq_dec k (Candidate.role (snd wc))) as [->|]; [|reflexivity].
  exfalso. apply H. now left.
Qed.

Lemma roles_of_combine (cs : list (Candidate.t num)) :
  List.map (fun wc => Candidate.role (snd wc)) (combine WEIGHTS cs)
  = List.map Candidate.role (firstn 5 cs).
Proof.
  unfold WEIGHTS.
  destruct cs as [|c1 [|c2 [|c3 [|c4 [|c5 cs]]]]]; reflexivity.
Qed.

End Slots.



(** ** Rounded trace, unrounded scores (C10) *)

Lemma for_each_simulation {S T I} (b1 : S -> I -> result S) (b2 : T -> I -> result T)
    (R : S -> T -> Prop) :
  (forall s t i s', R s t -> b1 s i = Ok s' -> exists t', b2 t i = Ok t' /\ R s' t') ->
  forall l s t s', R s t -> for_each b1 l s = Ok s' ->
                   exists t', for_each b2 l t = Ok t' /\ R s' t'.
Proof.
  intros step l; induction l as [|i l IH]; intros s t s' HR; simpl.
  - intros [= <-]. eauto.
  - destruct (b1 s i) as [s1|e] eqn:B; simpl; [|discriminate]. intros W.
    destruct (step _ _ _ _ HR B) as (t1 & -> & HR1). simpl. eauto.
Qed.

Section Trace.
Context {num : Type} {number : JSNumber num}.
Import RoleState.
Local Abbreviation states := (RoleStates (num := num)).

Lemma gains_of_app (k : RoleKey) (a b : list (RoleKey * num)) :
  gains_of k (a ++ b) = gains_of k a ++ gains_of k b.
Proof. unfold gains_of. now rewrite filter_app, List.map_app. Qed.

Lemma accumulate_app (x : num) (a b : list num) :
  accumulate x (a ++ b) = accumulate (accumulate x a) b.
Proof. apply fold_left_app. Qed.

(** The inner loop logs the rounded gains and adds the unrounded ones. *)
Lemma allocate_fold_raw (wcs : list (num * Candidate.t num)) (st : states)
    (log : list (MonthAllocation.t num)) :
  List.map (fun a => (MonthAllocation.role a, MonthAllocation.gain a))
           (snd (fold_left allocate wcs (st, log)))
  = List.map (fun a => (MonthAllocation.role a, MonthAllocation.gain a)) log
    ++ rounded (raw_gains st wcs)
  /\ forall k, score (fst (fold_left allocate wcs (st, log)) k)
               = accumulate (score (st k)) (gains_of k (raw_gains st wcs)).
Proof.
  revert st log; induction wcs as [|[w c] wcs IH]; intros st log.
  - simpl. rewrite app_nil_r. split; reflexivity.
  - cbn [fold_left allocate raw_gains]. destruct (IH (commit st c w)
      (log ++ [{| MonthAllocation.role := Candidate.role c;
                  MonthAllocation.weight := w;
                  MonthAllocation.gain := toFixed4 (allowable st c w) |}])) as [L S].
    split.
    + rewrite L, List.map_app, <- app_assoc. reflexivity.
    + intros k. rewrite S, score_commit. unfold gains_of. cbn [filter fst].
      destruct (RoleKey_eq_dec (Candidate.role c) k) as [->|D].
      * destruct (RoleKey_eq_dec k k); [reflexivity|congruence].
      * destruct (RoleKey_eq_dec k (Candidate.role c)); [congruence|reflexivity].
Qed.

Lemma month_raw_agrees (entries : list RoleEntry.t)
    (a : states * list (MonthDetail.t num))
    (b : states * list (list (RoleKey * num))) (ymIdx : Z)
    (a' : states * list (MonthDetail.t num)) :
  agrees a b -> month_step entries a ymIdx = Ok a' ->
  exists b', month_raw entries b ymIdx = Ok b' /\ agrees a' b'.
Proof.
  destruct a as [st md], b as [st0 raw]. intros (E & T & Sc). simpl in E, T, Sc.
  subst st0. unfold month_step, month_raw.
  destruct (activeRoles entries st ymIdx) as [|r active].
  - intros [= <-]. eexists; split; [reflexivity|]. repeat split; assumption.
  - destruct (rank st (r :: active)) as [[st1 cs]|e] eqn:R; cbn [bind]; [|discriminate].
    destruct (allocate_all st1 cs) as [st2 allocs] eqn:A. intros [= <-].
    eexists; split; [reflexivity|].
    destruct (allocate_fold_raw (combine WEIGHTS cs) st1 []) as [L S].
    fold (allocate_all st1 cs) in L, S. rewrite A in L, S. simpl in L, S.
    repeat split; cbn [fst snd].
    + rewrite !List.map_app, T. cbn [List.map MonthDetail.allocations]. now rewrite L.
    + intros k. rewrite concat_app, gains_of_app, accumulate_app. cbn [List.concat].
      rewrite app_nil_r, S, <- Sc. f_equal.
      unfold rank in R. destruct (map_from _ 0 (r :: active)); cbn [bind] in R; [|discriminate].
      injection R as <- _.
      change (score (fold_left serve (r :: active) st k) = score (st k)).
      apply score_fold_serve.
Qed.

(** The instrumented walk ends in the same state as the walk, its gains
    round to the trace, and they add up to the scores. *)
Lemma walk_raw_agrees (entries : list RoleEntry.t) (st : states)
    (md : list (MonthDetail.t num)) :
  walk entries = Ok (st, md) ->
  exists raw, walk_raw entries = Ok (st, raw)
              /\ List.map (fun d => List.map (fun x => (MonthAllocation.role x,
                                                        MonthAllocation.gain x))
                                             (MonthDetail.allocations d)) md
                 = List.map rounded raw
              /\ forall k, score (st k) = accumulate (lit 0) (gains_of k (List.concat raw)).
Proof.
  unfold walk, walk_raw. intros W.
  destruct (for_each_simulation (month_step entries) (month_raw entries) agrees
              (month_raw_agrees entries) _ (initial, []) (initial, []) _
              (conj eq_refl (conj eq_refl (fun _ => eq_refl))) W)
    as ([st' raw] & Wr & E & T & Sc).
  simpl in E, T, Sc. subst st'. exists raw. auto.
Qed.

End Trace.

(** C10.  For every accepted input, in any arithmetic: month by month the
    trace shows each committed gain rounded to 4 decimals on its own, while
    the score of a role is the running sum of its unrounded gains, and the
    summary shows that sum rounded once.  On [two_month_class_input] the
    summary of 班主任 is 0.1667, the rounding of 1/12 + 1/12, while the two
    gains of the trace, 0.0833 each, add up to 0.1666. *)
Theorem summary_rounds_sum_of_unrounded_gains :
  (forall (num : Type) (number : JSNumber num)
          (csvText : jsstring) (r : CalculationResult.t num),
      calculate csvText = Ok r ->
      exists entries st raw,
        parse_entries (lines_of csvText) = Ok entries
        /\ walk_raw entries = Ok (st, raw)
        /\ shown_gains r = List.map rounded raw
        /\ forall s, In s (CalculationResult.roleSummary r) ->
             RoleSummary.score s
             = toFixed4 (accumulate (lit 0)
                           (gains_of (RoleSummary.role s) (List.concat raw))))
  /\ (let r := returned (calculate (num := Q) two_month_class_input) empty_result in
      calculate two_month_class_input = Ok r
      /\ reported r CLASS == 0.1667
      /\ accumulate (lit 0) (gains_of CLASS (List.concat (shown_gains r))) == 0.1666)
  /\ (let r := returned (calculate (num := float) two_month_class_input) empty_result in
      calculate two_month_class_input = Ok r
      /\ reported r CLASS = lit 0.1667
      /\ accumulate (lit 0) (gains_of CLASS (List.concat (shown_gains r)))
         = jadd (lit 0.0833) (lit 0.0833)
      /\ jlt (jadd (lit 0.0833) (lit 0.0833)) (lit 0.1667) = true).
Proof.
  split; [|split; evaluate].
  intros num number csvText r H.
  apply calculate_Ok in H as (entries & st & md & P & W & ->).
  destruct (walk_raw_agrees entries st md W) as (raw & Wr & T & Sc).
  exists entries, st, raw. repeat split; auto.
  simpl. intros s Hs.
  repeat (destruct Hs as [<-|Hs]; [simpl; now rewrite Sc|]). destruct Hs.
Qed.

Lemma summary_rounds_sum_of_unrounded_gains_witness :
  calculate (num := Q) scenario1 = Ok scenario1_result
  /\ exists entries st raw,
       parse_entries (lines_of scenario1) = Ok entries
       /\ walk_raw (num := Q) entries = Ok (st, raw)
       /\ shown_gains scenario1_result = List.map rounded raw.
Proof.
  assert (H : calculate (num := Q) scenario1 = Ok scenario1_result)
    by (vm_compute; reflexivity).
  split; [exact H|].
  destruct (proj1 summary_rounds_sum_of_unrounded_gains Q Q_number
              scenario1 scenario1_result H)
    as (entries & st & raw & P & W & T & _).
  exists entries, st, raw. auto.
Defined.

(** * Further properties of the walk *)

(** ** Flags and counters, for any number type *)

Section Flags.
Context {num : Type} {number : JSNumber num}.
Import RoleState.
Local Abbreviation states := (RoleStates (num := num)).

Lemma capped_set_capped (st : states) (r k : RoleKey) :
  capped (set_capped st r k)
  = if RoleKey_eq_dec k r then true else capped (st k).
Proof. unfold set_capped, set. destruct (RoleKey_eq_dec k r); reflexivity. Qed.

Lemma capped_add_score (st : states) (r k : RoleKey) (x : num) :
  capped (add_score st r x k) = capped (st k).
Proof. unfold add_score, set. destruct (RoleKey_eq_dec k r); subst; reflexivity. Qed.

Lemma monthsServed_add_score (st : states) (r k : RoleKey) (x : num) :
  monthsServed (add_score st r x k) = monthsServed (st k).
Proof. unfold add_score, set. destruct (RoleKey_eq_dec k r); subst; reflexivity. Qed.

Lemma monthsServed_set_capped (st : states) (r k : RoleKey) :
  monthsServed (set_capped st r k) = monthsServed (st k).
Proof. unfold set_capped, set. destruct (RoleKey_eq_dec k r); subst; reflexivity. Qed.

Lemma monthsServed_update_capped (st : states) (role k : RoleKey) :
  monthsServed (update_capped st role k) = monthsServed (st k).
Proof.
  unfold update_capped.
  repeat match goal with
         | |- context [if ?b then _ else _] => destruct b
         end; rewrite ?monthsServed_set_capped; reflexivity.
Qed.

Lemma monthsServed_commit (st : states) (c : Candidate.t num) (w : num) (k : RoleKey) :
  monthsServed (commit st c w k) = monthsServed (st k).
Proof.
  unfold commit. now rewrite monthsServed_update_capped, monthsServed_add_score.
Qed.

(** A flag that is set stays set through lines 92-102. *)
Lemma capped_update_capped_keeps (st : states) (role k : RoleKey) :
  capped (st k) = true -> capped (update_capped st role k) = true.
Proof.
  intros H. unfold update_capped.
  repeat match goal with
         | |- context [if ?b then _ else _] => destruct b
         end; rewrite ?capped_set_capped;
    repeat match goal with
           | |- context [RoleKey_eq_dec ?a ?b] => destruct (RoleKey_eq_dec a b)
           end; auto.
Qed.

Lemma capped_commit_keeps (st : states) (c : Candidate.t num) (w : num) (k : RoleKey) :
  capped (st k) = true -> capped (commit st c w k) = true.
Proof.
  intros H. unfold commit. apply capped_update_capped_keeps.
  now rewrite capped_add_score.
Qed.

Lemma capped_serve (st : states) (r : jsstring) (k : RoleKey) :
  capped (serve st r k) = capped (st k).
Proof.
  unfold serve. destruct (own_key r) as [k'|]; [|reflexivity].
  unfold set. destruct (RoleKey_eq_dec k k'); subst; reflexivity.
Qed.

Lemma capped_fold_serve (active : list jsstring) (st : states) (k : RoleKey) :
  capped (fold_left serve active st k) = capped (st k).
Proof.
  revert st; induction active as [|r active IH]; intros st; simpl; [reflexivity|].
  rewrite IH. apply capped_serve.
Qed.

Lemma capped_fold_allocate_keeps (wcs : list (num * Candidate.t num))
    (acc : states * list (MonthAllocation.t num)) (k : RoleKey) :
  capped (fst acc k) = true -> capped (fst (fold_left allocate wcs acc) k) = true.
Proof.
  revert acc; induction wcs as [|wc wcs IH]; intros acc H; simpl; [exact H|].
  apply IH. rewrite fst_allocate. now apply capped_commit_keeps.
Qed.

Lemma monthsServed_fold_allocate (wcs : list (num * Candidate.t num))
    (acc : states * list (MonthAllocation.t num)) (k : RoleKey) :
  monthsServed (fst (fold_left allocate wcs acc) k) = monthsServed (fst acc k).
Proof.
  revert acc; induction wcs as [|wc wcs IH]; intros acc; simpl; [reflexivity|].
  rewrite IH, fst_allocate. apply monthsServed_commit.
Qed.

(** A capped role is not among the active roles. *)
Lemma capped_not_active (entries : list RoleEntry.t) (st : states) (ymIdx : Z)
    (k : RoleKey) :
  capped (st k) = true -> ~ In (key_string k) (activeRoles entries st ymIdx).
Proof.
  intros H Hin. unfold activeRoles in Hin. apply filter_In in Hin as [_ Hin].
  unfold not_capped in Hin. rewrite own_key_key_string, H in Hin. discriminate.
Qed.

(** The candidates of a month are the roles of its active records. *)
Lemma rank_roles (st st1 : states) (active : list jsstring)
    (cs : list (Candidate.t num)) :
  rank st active = Ok (st1, cs) ->
  st1 = fold_left serve active st
  /\ Permutation (List.map (fun c => key_string (Candidate.role c)) cs) active.
Proof.
  unfold rank.
  destruct (map_from _ 0 active) as [cs0|e] eqn:M; cbn [bind]; [|discriminate].
  intros [= <- <-]. split; [reflexivity|].
  destruct (candidates_of_active _ _ _ _ M) as [<- _].
  apply Permutation_map, sort_perm.
Qed.

(** A month leaves a capped role as it found it. *)
Lemma month_step_capped (entries : list RoleEntry.t) (st st' : states)
    (md md' : list (MonthDetail.t num)) (ymIdx : Z) (k : RoleKey) :
  month_step entries (st, md) ymIdx = Ok (st', md') ->
  capped (st k) = true ->
  capped (st' k) = true
  /\ score (st' k) = score (st k)
  /\ monthsServed (st' k) = monthsServed (st k)
  /\ exists later, md' = md ++ later /\ Forall (fun d => ~ In k (roles_of d)) later.
Proof.
  intros H C. pose proof (capped_not_active entries st ymIdx k C) as NA.
  unfold month_step in H.
  destruct (activeRoles entries st ymIdx) as [|a active] eqn:Act.
  - injection H as <- <-. repeat split; auto. exists []. rewrite app_nil_r. auto.
  - destruct (rank st (a :: active)) as [[st1 cs]|e] eqn:R; cbn [bind] in H; [|discriminate].
    destruct (allocate_all st1 cs) as [st2 allocs] eqn:A. injection H as <- <-.
    destruct (rank_roles _ _ _ _ R) as [E P].
    assert (NR : ~ In k (List.map Candidate.role cs)).
    { intros Hin. apply NA. eapply Permutation_in; [exact P|].
      apply in_map_iff in Hin as (c & <- & Hc). apply in_map_iff. eauto. }
    assert (NW : ~ In k (List.map (fun wc : num * Candidate.t num => Candidate.role (snd wc))
                            (combine WEIGHTS cs))).
    { rewrite roles_of_combine. intros Hin. apply NR.
      apply in_map_iff in Hin as (c & <- & Hc). apply in_map.
      rewrite <- (firstn_skipn 5 cs). apply in_or_app. now left. }
    assert (S1 : fst (allocate_all st1 cs) = st2) by now rewrite A.
    assert (S2 : snd (allocate_all st1 cs) = allocs) by now rewrite A.
    unfold allocate_all in S1, S2. subst st1.
    split; [|split; [|split]].
    + rewrite <- S1. apply capped_fold_allocate_keeps. cbn [fst].
      now rewrite capped_fold_serve.
    + rewrite <- S1, score_fold_allocate_other by exact NW. cbn [fst].
      apply score_fold_serve.
    + rewrite <- S1, monthsServed_fold_allocate. cbn [fst].
      rewrite monthsServed_fold_serve.
      rewrite (count_occ_not_In (list_eq_dec N.eq_dec)) in NA. rewrite NA. lia.
    + eexists; split; [reflexivity|]. constructor; [|constructor].
      unfold roles_of. cbn [MonthDetail.allocations].
      assert (E : List.map MonthAllocation.role allocs
                  = List.map snd (List.map (fun a => (MonthAllocation.weight a,
                                                      MonthAllocation.role a)) allocs))
        by (rewrite List.map_map; reflexivity).
      rewrite E, <- S2, allocations_of_fold. simpl snd at 1. simpl List.map at 2.
      rewrite app_nil_l, List.map_map. exact NW.
Qed.

End Flags.

(** X1.  Once a role is capped, every later month leaves it alone: through
    any further months of the walk its flag stays set, its score and its
    months-served counter do not change, and none of the month details
    added has an allocation event for it. *)
Theorem capped_role_is_frozen :
  forall (num : Type) (number : JSNumber num) (entries : list RoleEntry.t)
         (months : list Z) (acc acc' : RoleStates * list (MonthDetail.t num))
         (k : RoleKey),
    for_each (month_step entries) months acc = Ok acc' ->
    RoleState.capped (fst acc k) = true ->
    RoleState.capped (fst acc' k) = true
    /\ RoleState.score (fst acc' k) = RoleState.score (fst acc k)
    /\ RoleState.monthsServed (fst acc' k) = RoleState.monthsServed (fst acc k)
    /\ exists later,
         snd acc' = snd acc ++ later
         /\ Forall (fun d => ~ In k (roles_of d)) later.
Proof.
  intros num number entries months acc acc' k W C.
  revert W. apply for_each_invariant
    with (P := fun a : RoleStates * list (MonthDetail.t num) =>
                 RoleState.capped (fst a k) = true
                 /\ RoleState.score (fst a k) = RoleState.score (fst acc k)
                 /\ RoleState.monthsServed (fst a k) = RoleState.monthsServed (fst acc k)
                 /\ exists later,
                      snd a = snd acc ++ later
                      /\ Forall (fun d => ~ In k (roles_of d)) later).
  - intros [st md] i [st' md'] (C1 & S1 & M1 & later & E1 & F1) Step.
    simpl in *.
    destruct (month_step_capped entries st st' md md' i k Step C1)
      as (C2 & S2 & M2 & more & E2 & F2).
    repeat split; try congruence.
    exists (later ++ more). split.
    + now rewrite E2, E1, app_assoc.
    + apply Forall_app. auto.
  - repeat split; auto. exists []. now rewrite app_nil_r.
Qed.

Lemma capped_role_is_frozen_witness :
  let months := month_indices (minYM scenario1_entries) (maxYM scenario1_entries) in
  let acc := (set_capped (initial (num := Q)) CLASS, @nil (MonthDetail.t Q)) in
  for_each (month_step scenario1_entries) months acc = Ok acc
  /\ RoleState.capped (fst acc CLASS) = true
  /\ exists later,
       snd acc = snd acc ++ later
       /\ Forall (fun d => ~ In CLASS (roles_of d)) later.
Proof.
  intros months acc.
  assert (H1 : for_each (month_step scenario1_entries) months acc = Ok acc)
    by (vm_compute; reflexivity).
  assert (H2 : RoleState.capped (fst acc CLASS) = true) by reflexivity.
  split; [exact H1|]. split; [exact H2|].
  exact (proj2 (proj2 (proj2 (capped_role_is_frozen Q Q_number scenario1_entries
                                 months acc acc CLASS H1 H2)))).
Defined.

(** ** Monotone scores and exact flags, over exact rationals *)

Section Monotone.
Import RoleState.
Local Abbreviation states := (RoleStates (num := Q)).




End Monotone.



Section Exact.
Import RoleState.
Local Abbreviation states := (RoleStates (num := Q)).







End Exact.



(** * Further properties of the parser and of failure *)

(** The parser stops at the first line it rejects, whatever the reason. *)
Lemma map_from_parse_Throw (lines : list jsstring) (i : nat) (err : error) :
  map_from parse_line i lines = Throw err <->
  exists good line rest,
    lines = good ++ line :: rest
    /\ Forall valid_line good
    /\ parse_line line (i + List.length good) = Throw err.
Proof.
  split.
  - revert i; induction lines as [|l lines IH]; intros i; simpl; [discriminate|].
    destruct (parse_line l i) as [e|err'] eqn:P; cbn [bind].
    + destruct (map_from parse_line (S i) lines) as [es|err'] eqn:M;
        cbn [bind]; [discriminate|].
      intros [= ->]. apply IH in M as (good & line & rest & -> & Hg & Hl).
      exists (l :: good), line, rest. repeat split; auto.
      * constructor; auto. apply (parse_line_Ok l i); eauto.
      * simpl. now rewrite Nat.add_succ_r.
    + intros [= ->]. exists [], l, lines. repeat split; auto.
      simpl. now rewrite Nat.add_0_r.
  - intros (good & line & rest & -> & Hg & Hl).
    revert i Hl; induction Hg as [|g good V Hg IH]; intros i Hl; simpl.
    + simpl in Hl. rewrite Nat.add_0_r in Hl. now rewrite Hl.
    + apply (parse_line_Ok g i) in V as [e ->]. cbn [bind].
      rewrite IH; [reflexivity|]. simpl in Hl. now rewrite Nat.add_succ_r in Hl.
Qed.


Lemma parse_line_UnknownRole (line : jsstring) (idx : nat) (role : jsstring) :
  parse_line line idx = Throw (UnknownRoleError role) <->
  exists start end_,
    regex_match line = Some (role, start, end_) /\ ROLE_INFO_has role = false.
Proof.
  unfold parse_line. split.
  - destruct (regex_match line) as [[[r s] e]|]; [|discriminate].
    destruct (ROLE_INFO_has r) eqn:H; cbn [negb].
    + destruct (string_lt e s); discriminate.
    + intros [= ->]. eauto.
  - intros (s & e & -> & ->). reflexivity.
Qed.

Lemma parse_line_InvalidRange (line : jsstring) (idx : nat) (role : jsstring) :
  parse_line line idx = Throw (InvalidRangeError role) <->
  exists start end_,
    regex_match line = Some (role, start, end_)
    /\ ROLE_INFO_has role = true /\ string_lt end_ start = true.
Proof.
  unfold parse_line. split.
  - destruct (regex_match line) as [[[r s] e]|]; [|discriminate].
    destruct (ROLE_INFO_has r) eqn:H; cbn [negb]; [|discriminate].
    destruct (string_lt e s) eqn:L; [|discriminate].
    intros [= ->]. eauto.
  - intros (s & e & -> & -> & ->). reflexivity.
Qed.


Section Failure.
Context {num : Type} {number : JSNumber num}.

(** An error other than [TypeError] comes from the parser. *)
Lemma calculate_parser_error (csvText : jsstring) (err : error) :
  err <> TypeError ->
  (calculate (num := num) csvText = Throw err <->
   parse_entries (lines_of csvText) = Throw err).
Proof.
  intros NT. unfold calculate.
  destruct (parse_entries (lines_of csvText)) as [entries|e]; cbn [bind];
    [|split; intros [= ->]; reflexivity].
  destruct (walk entries) as [[st md]|e] eqn:W; cbn [bind].
  - split; discriminate.
  - apply walk_throws in W as ->. split; [intros [= <-]; contradiction|discriminate].
Qed.

End Failure.

(** X4.  [calculate] fails with an unknown-role error naming [role]
    exactly when the first non-blank line the parser rejects matches the
    pattern and its first field, [role], is no property of the role table;
    the error carries that field as captured. *)
Theorem UnknownRoleError_iff :
  forall (num : Type) (number : JSNumber num) (csvText role : jsstring),
    calculate (num := num) csvText = Throw (UnknownRoleError role) <->
    exists good line rest start end_,
      lines_of csvText = good ++ line :: rest
      /\ Forall valid_line good
      /\ regex_match line = Some (role, start, end_)
      /\ ROLE_INFO_has role = false.
Proof.
  intros num number csvText role.
  rewrite calculate_parser_error by discriminate.
  unfold parse_entries. rewrite map_from_parse_Throw. split.
  - intros (good & line & rest & E & G & P).
    apply parse_line_UnknownRole in P as (s & e & M & H).
    exists good, line, rest, s, e. auto.
  - intros (good & line & rest & s & e & E & G & M & H).
    exists good, line, rest. repeat split; auto.
    apply parse_line_UnknownRole. eauto.
Qed.

(** X5.  [calculate] fails with a date-order error naming [role] exactly
    when the first non-blank line the parser rejects matches the pattern,
    its role is a property of the role table, and its end date sorts, as
    a string, before its start date. *)
Theorem InvalidRangeError_iff :
  forall (num : Type) (number : JSNumber num) (csvText role : jsstring),
    calculate (num := num) csvText = Throw (InvalidRangeError role) <->
    exists good line rest start end_,
      lines_of csvText = good ++ line :: rest
      /\ Forall valid_line good
      /\ regex_match line = Some (role, start, end_)
      /\ ROLE_INFO_has role = true
      /\ string_lt end_ start = true.
Proof.
  intros num number csvText role.
  rewrite calculate_parser_error by discriminate.
  unfold parse_entries. rewrite map_from_parse_Throw. split.
  - intros (good & line & rest & E & G & P).
    apply parse_line_InvalidRange in P as (s & e & M & H & L).
    exists good, line, rest, s, e. auto.
  - intros (good & line & rest & s & e & E & G & M & H & L).
    exists good, line, rest. repeat split; auto.
    apply parse_line_InvalidRange. eauto.
Qed.

(** ** Inherited property names as roles *)





Section Crash.
Context {num : Type} {number : JSNumber num}.
Local Abbreviation states := (RoleStates (num := num)).






End Crash.



(** * Further properties of rounding and of the total *)












(** * Month indices and month labels (lines 23-32) *)









Lemma split_from_skip (sep : N) (a cur rest : jsstring) :
  Forall (fun c => c <> sep) a ->
  split_from sep cur (a ++ rest) = split_from sep (rev a ++ cur) rest.
Proof.
  intros H; revert cur; induction H as [|c a Hc H IH]; intros cur; simpl; [reflexivity|].
  destruct (N.eqb_spec c sep); [contradiction|].
  rewrite IH, <- app_assoc. reflexivity.
Qed.

(** Splitting at the first separator, and a piece without separator. *)
Lemma split_cons (sep : N) (a b : jsstring) :
  Forall (fun c => c <> sep) a ->
  split sep (a ++ sep :: b) = a :: split sep b.
Proof.
  intros H. unfold split. rewrite split_from_skip by exact H. simpl.
  rewrite N.eqb_refl, app_nil_r, rev_involutive. reflexivity.
Qed.





(** * The months of the trace (lines 59-63, 76-77, 105-106) *)

Lemma subsequence_In {A} (l1 l2 : list A) :
  subsequence l1 l2 -> forall x, In x l1 -> In x l2.
Proof.
  induction 1 as [|y l1 l2 H IH|y l1 l2 H IH]; intros x Hx; simpl in *; auto.
  destruct Hx; auto.
Qed.

Lemma subsequence_sorted {A} (R : A -> A -> Prop) (l1 l2 : list A) :
  subsequence l1 l2 -> StronglySorted R l2 -> StronglySorted R l1.
Proof.
  induction 1 as [|y l1 l2 H IH|y l1 l2 H IH]; intros S; auto.
  - inversion S; subst; auto.
  - inversion S as [|? ? S' F]; subst. constructor; auto.
    rewrite Forall_forall in *. intros x Hx. apply F. eapply subsequence_In; eauto.
Qed.

Lemma month_indices_sorted (lo hi : extended) :
  StronglySorted Z.lt (month_indices lo hi).
Proof.
  unfold month_indices. destruct lo as [|lo|]; try constructor.
  destruct hi as [|hi|]; try constructor.
  generalize (Z.to_nat (hi - lo + 1)) as n. intros n.
  cut (forall s, StronglySorted Z.lt (List.map (fun i => lo + Z.of_nat i)%Z (seq s n))).
  { intros H; apply H. }
  induction n as [|n IH]; intros s; simpl; constructor; [apply IH|].
  rewrite Forall_map, Forall_forall. intros x Hx. apply in_seq in Hx. lia.
Qed.

Section Months.
Context {num : Type} {number : JSNumber num}.
Local Abbreviation states := (RoleStates (num := num)).

Lemma length_allocate_fold (wcs : list (num * Candidate.t num))
    (acc : states * list (MonthAllocation.t num)) :
  List.length (snd (fold_left allocate wcs acc))
  = (List.length (snd acc) + List.length wcs)%nat.
Proof.
  revert acc; induction wcs as [|[w c] wcs IH]; intros [st log]; simpl; [lia|].
  rewrite IH. simpl. rewrite length_app. simpl. lia.
Qed.

(** A month adds nothing, or one entry that is [listed] at its index. *)
Lemma month_step_listed (entries : list RoleEntry.t) (st st' : states)
    (md md' : list (MonthDetail.t num)) (ymIdx : Z) :
  month_step entries (st, md) ymIdx = Ok (st', md') ->
  md' = md \/ exists d, md' = md ++ [d] /\ listed entries d ymIdx.
Proof.
  unfold month_step.
  destruct (activeRoles entries st ymIdx) as [|a active] eqn:Act.
  { intros [= <- <-]. now left. }
  destruct (rank st (a :: active)) as [[st1 cs]|e] eqn:R; cbn [bind]; [|discriminate].
  destruct (allocate_all st1 cs) as [st2 allocations] eqn:A.
  intros E. injection E as <- <-.
  right. eexists; split; [reflexivity|]. unfold listed.
  cbn [MonthDetail.ym MonthDetail.allocations]. repeat split.
  - assert (I : In a (activeRoles entries st ymIdx)) by (rewrite Act; now left).
    unfold activeRoles in I. apply filter_In in I. destruct I as [I _].
    apply in_map_iff in I. destruct I as (e & _ & I). apply filter_In in I.
    exists e. exact I.
  - apply rank_roles in R. destruct R as [_ P]. apply Permutation_length in P.
    rewrite length_map in P. cbn [List.length] in P.
    assert (L : List.length allocations = List.length (combine WEIGHTS cs)).
    { change allocations with (snd (st2, allocations)). rewrite <- A.
      unfold allocate_all. now rewrite length_allocate_fold. }
    rewrite L, length_combine. unfold WEIGHTS. cbn [List.length]. lia.
  - assert (L : List.length allocations = List.length (combine WEIGHTS cs)).
    { change allocations with (snd (st2, allocations)). rewrite <- A.
      unfold allocate_all. now rewrite length_allocate_fold. }
    rewrite L, length_combine. unfold WEIGHTS. cbn [List.length]. lia.
Qed.

Lemma for_each_listed (entries : list RoleEntry.t) (months : list Z) :
  forall (st st' : states) (md md' : list (MonthDetail.t num)),
    for_each (month_step entries) months (st, md) = Ok (st', md') ->
    exists ds idxs, md' = md ++ ds /\ subsequence idxs months
                    /\ Forall2 (listed entries) ds idxs.
Proof.
  induction months as [|i months IH]; intros st st' md md'; cbn [for_each].
  - intros [= <- <-]. exists [], []. rewrite app_nil_r. repeat constructor.
  - destruct (month_step entries (st, md) i) as [[st1 md1]|e] eqn:M; cbn [bind];
      [|discriminate].
    intros F. apply IH in F. destruct F as (ds & idxs & -> & Sub & F2).
    apply month_step_listed in M. destruct M as [->|(d & -> & L)].
    + exists ds, idxs. repeat split; auto. now constructor.
    + exists (d :: ds), (i :: idxs). rewrite <- app_assoc. repeat split; auto.
      now constructor.
Qed.

End Months.

(** X11.  The trace of a run that returns lists months in strictly
    ascending order: its entries are written at increasing month indices,
    each carries the label of its index, lies inside some record's range
    and holds between one and five allocations. *)
Theorem trace_months_ascend :
  forall {num : Type} {number : JSNumber num} (csvText : jsstring)
         (r : CalculationResult.t num),
    calculate csvText = Ok r ->
    exists (entries : list RoleEntry.t) (idxs : list Z),
      parse_entries (lines_of csvText) = Ok entries
      /\ StronglySorted Z.lt idxs
      /\ Forall2 (listed entries) (CalculationResult.monthDetails r) idxs.
Proof.
  intros num number csvText r. unfold calculate.
  destruct (parse_entries (lines_of csvText)) as [entries|e] eqn:P; cbn [bind];
    [|discriminate].
  destruct (walk entries) as [[st md]|e] eqn:W; cbn [bind]; [|discriminate].
  intros [= <-]. exists entries. unfold walk in W.
  apply for_each_listed in W. destruct W as (ds & idxs & -> & Sub & F2).
  exists idxs. repeat split; auto.
  eapply subsequence_sorted; [exact Sub|apply month_indices_sorted].
Qed.

Lemma trace_months_ascend_witness :
  exists (entries : list RoleEntry.t) (idxs : list Z),
    parse_entries (lines_of scenario1) = Ok entries
    /\ StronglySorted Z.lt idxs
    /\ Forall2 (listed entries)
               (CalculationResult.monthDetails (num := Q) scenario1_result) idxs.
Proof.
  apply (trace_months_ascend (num := Q) scenario1 scenario1_result).
  vm_compute; reflexivity.
Defined.

(** * The dates the parser accepts (lines 43-49, 23-26, 52-62) *)

Section RegexSound.
Variable P : captures -> Prop.

Lemma opt_quote_sound (k : jsstring -> option captures) :
  (forall s m, k s = Some m -> P m) ->
  forall s m, opt_quote k s = Some m -> P m.
Proof.
  intros Hk s m. unfold opt_quote. destruct s as [|c r]; [apply Hk|].
  destruct (c =? QUOTE)%N; [|apply Hk].
  unfold orElse. destruct (k r) eqn:E; [intros [= <-]; eapply Hk; eauto|apply Hk].
Qed.

Lemma comma_sound (k : jsstring -> option captures) :
  (forall s m, k s = Some m -> P m) ->
  forall s m, comma k s = Some m -> P m.
Proof.
  intros Hk s m. unfold comma. destruct s as [|c r]; [discriminate|].
  destruct (c =? COMMA)%N; [apply Hk|discriminate].
Qed.

Lemma spaces_sound (k : jsstring -> option captures) :
  (forall s m, k s = Some m -> P m) ->
  forall s m, spaces k s = Some m -> P m.
Proof.
  intros Hk s m. induction s as [|c r IH]; cbn [spaces]; [apply Hk|].
  destruct (isSpace c); [|apply Hk].
  unfold orElse. destruct (spaces k r) eqn:E; [intros [= <-]; now apply IH|apply Hk].
Qed.

Lemma date_sound (k : jsstring -> jsstring -> option captures) :
  (forall d, date_shape d = true -> forall s m, k d s = Some m -> P m) ->
  forall s m, date k s = Some m -> P m.
Proof.
  intros Hk s m. unfold date.
  destruct (date_shape (firstn 10 s)) eqn:D; [now apply Hk|discriminate].
Qed.

Lemma lazy_any_sound (k : jsstring -> jsstring -> option captures) :
  (forall r s m, k r s = Some m -> P m) ->
  forall s acc m, lazy_any k acc s = Some m -> P m.
Proof.
  intros Hk s. induction s as [|c r IH]; intros acc m; cbn [lazy_any]; unfold orElse.
  - destruct (k (rev acc) []) eqn:E; [intros [= <-]; eapply Hk; eauto|discriminate].
  - destruct (k (rev acc) (c :: r)) eqn:E; [intros [= <-]; eapply Hk; eauto|].
    destruct (isLineTerminator c); [discriminate|apply IH].
Qed.

End RegexSound.

(** Both dates the pattern captures have the shape [dddd-dd-dd]. *)
Lemma regex_match_dates (s role start end_ : jsstring) :
  regex_match s = Some (role, start, end_) ->
  date_shape start = true /\ date_shape end_ = true.
Proof.
  set (P := fun m : captures =>
              date_shape (snd (fst m)) = true /\ date_shape (snd m) = true).
  cut (forall m, regex_match s = Some m -> P m).
  { intros H E. exact (H _ E). }
  assert (A : forall m s', pattern_at s' = Some m -> P m).
  { intros m s'. unfold pattern_at. apply opt_quote_sound. intros s1 m1.
    apply lazy_any_sound. clear. intros role s2 m2. unfold after_role.
    apply opt_quote_sound, comma_sound, spaces_sound, opt_quote_sound, date_sound.
    intros start Hs. unfold after_start.
    apply opt_quote_sound, comma_sound, spaces_sound, opt_quote_sound, date_sound.
    intros end_ He. apply opt_quote_sound. intros s3 m3 [= <-]. split; assumption. }
  induction s as [|c r IH]; intros m; cbn [regex_match].
  - destruct (pattern_at []) eqn:E; [intros [= <-]; eapply A; eauto|discriminate].
  - destruct (pattern_at (c :: r)) eqn:E; [intros [= <-]; eapply A; eauto|apply IH].
Qed.

Lemma isDigit_bounds (c : N) : isDigit c = true -> (48 <= c <= 57)%N.
Proof.
  unfold isDigit, range. rewrite andb_true_iff, !N.leb_le. auto.
Qed.

Lemma date_shape_inv (d : jsstring) :
  date_shape d = true ->
  exists y1 y2 y3 y4 m1 m2 d1 d2 : N,
    d = [y1; y2; y3; y4; HYPHEN; m1; m2; HYPHEN; d1; d2]
    /\ Forall (fun c => 48 <= c <= 57)%N [y1; y2; y3; y4; m1; m2; d1; d2].
Proof.
  unfold date_shape.
  destruct d as [|y1 [|y2 [|y3 [|y4 [|h1 [|m1 [|m2 [|h2 [|d1 [|d2 [|x d]]]]]]]]]]];
    try discriminate.
  cbn [forallb]. rewrite !andb_true_iff, !N.eqb_eq.
  intros [[(Y1 & Y2 & Y3 & Y4 & M1 & M2 & D1 & D2 & _) ->] ->].
  exists y1, y2, y3, y4, m1, m2, d1, d2. split; [reflexivity|].
  repeat constructor; now apply isDigit_bounds.
Qed.

(** The index of a date of the pattern's shape is [12 * year + month - 1]. *)
Lemma ymToIndex_date (d : jsstring) :
  date_shape d = true ->
  ymToIndex d = (year_of d * 12 + (month_of d - 1))%Z.
Proof.
  intros H. apply date_shape_inv in H.
  destruct H as (y1 & y2 & y3 & y4 & m1 & m2 & d1 & d2 & -> & F).
  unfold ymToIndex, year_of, month_of. cbn [firstn skipn].
  change [y1; y2; y3; y4; HYPHEN; m1; m2; HYPHEN; d1; d2]
    with ([y1; y2; y3; y4] ++ HYPHEN :: ([m1; m2] ++ HYPHEN :: [d1; d2])).
  rewrite !Forall_cons_iff in F. destruct F as (? & ? & ? & ? & ? & ? & _).
  rewrite split_cons by (repeat (constructor; [unfold HYPHEN; lia|]); constructor).
  rewrite split_cons by (repeat (constructor; [unfold HYPHEN; lia|]); constructor).
  reflexivity.
Qed.

(** String order on two dates of the pattern's shape orders their month
    indices, provided the earlier month field is at most 12. *)
Lemma date_order (a b : jsstring) :
  date_shape a = true -> date_shape b = true ->
  string_lt b a = false ->
  (month_of a <= 12)%Z ->
  (ymToIndex a <= ymToIndex b)%Z.
Proof.
  intros Ha Hb. rewrite (ymToIndex_date a Ha), (ymToIndex_date b Hb).
  apply date_shape_inv in Ha. apply date_shape_inv in Hb.
  destruct Ha as (y1 & y2 & y3 & y4 & m1 & m2 & d1 & d2 & -> & Fa).
  destruct Hb as (z1 & z2 & z3 & z4 & n1 & n2 & e1 & e2 & -> & Fb).
  unfold year_of, month_of, Number. cbn [firstn skipn fold_left string_lt].
  rewrite !Forall_cons_iff in Fa, Fb.
  destruct Fa as (? & ? & ? & ? & ? & ? & _). destruct Fb as (? & ? & ? & ? & ? & ? & _).
  destruct (N.ltb_spec z1 y1); [discriminate|].
  destruct (N.ltb_spec y1 z1); [lia|].
  destruct (N.ltb_spec z2 y2); [discriminate|].
  destruct (N.ltb_spec y2 z2); [lia|].
  destruct (N.ltb_spec z3 y3); [discriminate|].
  destruct (N.ltb_spec y3 z3); [lia|].
  destruct (N.ltb_spec z4 y4); [discriminate|].
  destruct (N.ltb_spec y4 z4); [lia|].
  rewrite N.ltb_irrefl.
  destruct (N.ltb_spec n1 m1); [discriminate|].
  destruct (N.ltb_spec m1 n1); [lia|].
  destruct (N.ltb_spec n2 m2); [discriminate|].
  destruct (N.ltb_spec m2 n2); lia.
Qed.

(** X12.  Both dates of an accepted record have the shape [dddd-dd-dd];
    the month index of such a date is [12 * year + month - 1] whatever
    its two month digits are; and when the start month is at most 12 the
    record's month range is not empty. *)
Theorem accepted_record_dates :
  forall (line : jsstring) (idx : nat) (e : RoleEntry.t),
    parse_line line idx = Ok e ->
    date_shape (RoleEntry.start e) = true
    /\ date_shape (RoleEntry.end_ e) = true
    /\ ymToIndex (RoleEntry.start e)
       = (year_of (RoleEntry.start e) * 12 + (month_of (RoleEntry.start e) - 1))%Z
    /\ ymToIndex (RoleEntry.end_ e)
       = (year_of (RoleEntry.end_ e) * 12 + (month_of (RoleEntry.end_ e) - 1))%Z
    /\ ((month_of (RoleEntry.start e) <= 12)%Z ->
        (ymToIndex (RoleEntry.start e) <= ymToIndex (RoleEntry.end_ e))%Z).
Proof.
  intros line idx e. unfold parse_line.
  destruct (regex_match line) as [[[role start] end_]|] eqn:M; [|discriminate].
  destruct (ROLE_INFO_has role); cbn [negb]; [|discriminate].
  destruct (string_lt end_ start) eqn:L; [discriminate|].
  intros [= <-]. cbn [RoleEntry.start RoleEntry.end_].
  apply regex_match_dates in M. destruct M as [Hs He].
  split; [exact Hs|]. split; [exact He|].
  split; [now apply ymToIndex_date|]. split; [now apply ymToIndex_date|].
  now apply date_order.
Qed.

Lemma accepted_record_dates_witness :
  parse_line scenario1 0
  = Ok {| RoleEntry.role := key_string CLASS;
          RoleEntry.start := units "2020-01-01";
          RoleEntry.end_ := units "2020-01-31" |}
  /\ (ymToIndex (units "2020-01-01") <= ymToIndex (units "2020-01-31"))%Z.
Proof.
  assert (H : parse_line scenario1 0
              = Ok {| RoleEntry.role := key_string CLASS;
                      RoleEntry.start := units "2020-01-01";
                      RoleEntry.end_ := units "2020-01-31" |})
    by (vm_compute; reflexivity).
  split; [exact H|].
  destruct (accepted_record_dates _ _ _ H) as (_ & _ & _ & _ & R).
  apply R. vm_compute. discriminate.
Defined.


Section Reversed.
Context {num : Type} {number : JSNumber num}.
Local Abbreviation states := (RoleStates (num := num)).



End Reversed.



(** * Ties in the ranking (line 74) *)





(** * The lines the parser sees (line 42) *)

Lemma dropWhile_head (p : N -> bool) (s : jsstring) :
  match dropWhile p s with [] => True | c :: _ => p c = false end.
Proof.
  induction s as [|c s IH]; cbn [dropWhile]; [exact I|].
  destruct (p c) eqn:E; [exact IH|exact E].
Qed.

Lemma dropWhile_fixed (p : N -> bool) (s : jsstring) :
  match s with [] => True | c :: _ => p c = false end -> dropWhile p s = s.
Proof.
  destruct s as [|c s]; cbn [dropWhile]; [reflexivity|]. now intros ->.
Qed.

Lemma dropWhile_suffix (p : N -> bool) (s : jsstring) :
  exists pre, s = pre ++ dropWhile p s.
Proof.
  induction s as [|c s [pre IH]]; cbn [dropWhile]; [now exists []|].
  destruct (p c); [|now exists []].
  exists (c :: pre). cbn [app]. now rewrite <- IH.
Qed.

(** [trim] leaves a trimmed string as it is. *)
Lemma trim_trim (s : jsstring) : trim (trim s) = trim s.
Proof.
  unfold trim.
  pose proof (dropWhile_head isSpace s) as Ht.
  set (t := dropWhile isSpace s) in *.
  pose proof (dropWhile_head isSpace (rev t)) as Hu.
  destruct (dropWhile_suffix isSpace (rev t)) as [pre E].
  set (u := dropWhile isSpace (rev t)) in *.
  assert (T : t = rev u ++ rev pre)
    by (rewrite <- rev_app_distr, <- E; symmetry; apply rev_involutive).
  assert (F : dropWhile isSpace (rev u) = rev u).
  { apply dropWhile_fixed. destruct (rev u) as [|c r]; [exact I|].
    rewrite T in Ht. exact Ht. }
  rewrite F, rev_involutive. f_equal. now apply dropWhile_fixed.
Qed.

(** X15.  The parser sees no blank line and no line with white space at
    either end: every line it is given is non-empty and equal to its own
    trim. *)
Theorem lines_are_trimmed :
  forall csvText : jsstring,
    Forall (fun l => l <> [] /\ trim l = l) (lines_of csvText).
Proof.
  intros csvText. unfold lines_of. apply Forall_forall. intros l H.
  apply filter_In in H. destruct H as [H T]. split.
  - destruct l; [discriminate|congruence].
  - apply in_map_iff in H. destruct H as (x & <- & _). apply trim_trim.
Qed.

(** * Lines the pattern accepts (line 44) *)

Section RegexSteps.
Variable A : Type.
Implicit Types k : jsstring -> option A.

Lemma opt_quote_hit k (r : jsstring) (m : A) :
  k r = Some m -> opt_quote k (QUOTE :: r) = Some m.
Proof. intros H. unfold opt_quote. rewrite N.eqb_refl. unfold orElse. now rewrite H. Qed.

Lemma opt_quote_miss k (c : N) (r : jsstring) :
  c <> QUOTE -> opt_quote k (c :: r) = k (c :: r).
Proof.
  intros H. unfold opt_quote. destruct (N.eqb_spec c QUOTE); [contradiction|reflexivity].
Qed.

Lemma comma_hit k (r : jsstring) : comma k (COMMA :: r) = k r.
Proof. unfold comma. now rewrite N.eqb_refl. Qed.

Lemma spaces_miss k (c : N) (r : jsstring) :
  isSpace c = false -> spaces k (c :: r) = k (c :: r).
Proof. intros H. cbn [spaces]. now rewrite H. Qed.

Lemma date_hit (k : jsstring -> jsstring -> option A) (d s : jsstring) :
  date_shape d = true -> date k (d ++ s) = k d s.
Proof.
  intros H. unfold date.
  assert (L : List.length d = 10%nat).
  { apply date_shape_inv in H. destruct H as (? & ? & ? & ? & ? & ? & ? & ? & -> & _).
    reflexivity. }
  rewrite <- L, firstn_app, skipn_app, Nat.sub_diag, firstn_all, skipn_all.
  cbn [firstn skipn app]. rewrite app_nil_r, H. reflexivity.
Qed.

End RegexSteps.

Lemma digit_classes (c : N) :
  (48 <= c <= 57)%N -> isSpace c = false /\ c <> QUOTE /\ c <> COMMA.
Proof.
  intros H. unfold QUOTE, COMMA. split; [|lia].
  assert (C : (c = 48 \/ c = 49 \/ c = 50 \/ c = 51 \/ c = 52 \/ c = 53 \/ c = 54
               \/ c = 55 \/ c = 56 \/ c = 57)%N) by lia.
  repeat (destruct C as [C|C]); subst c; reflexivity.
Qed.

(** A date of the pattern's shape starts with a digit. *)
Lemma date_shape_head (d : jsstring) :
  date_shape d = true ->
  exists c r, d = c :: r /\ isSpace c = false /\ c <> QUOTE /\ c <> COMMA.
Proof.
  intros H. apply date_shape_inv in H.
  destruct H as (y1 & ? & ? & ? & ? & ? & ? & ? & -> & F).
  inversion F; subst. eexists _, _. split; [reflexivity|]. now apply digit_classes.
Qed.

Lemma plain_spec (c : N) :
  plain c = true -> c <> QUOTE /\ c <> COMMA /\ isLineTerminator c = false.
Proof.
  unfold plain. rewrite !andb_true_iff, !negb_true_iff, !N.eqb_neq. tauto.
Qed.

(** The lazy group passes over plain code units. *)
Lemma lazy_any_plain (pre acc rest : jsstring) :
  forallb plain pre = true ->
  lazy_any after_role acc (pre ++ rest) = lazy_any after_role (rev pre ++ acc) rest.
Proof.
  revert acc. induction pre as [|c pre IH]; intros acc H; [reflexivity|].
  cbn [forallb] in H. apply andb_true_iff in H. destruct H as [Hc H].
  apply plain_spec in Hc. destruct Hc as (Q & C & L).
  cbn [app lazy_any]. rewrite L.
  assert (N : after_role (rev acc) (c :: pre ++ rest) = None).
  { unfold after_role. rewrite opt_quote_miss by exact Q.
    unfold comma. destruct (N.eqb_spec c COMMA); [contradiction|reflexivity]. }
  rewrite N. cbn [orElse]. rewrite IH by exact H.
  cbn [rev]. now rewrite <- app_assoc.
Qed.

Lemma regex_match_hit (s : jsstring) (m : captures) :
  pattern_at s = Some m -> regex_match s = Some m.
Proof. intros H. destruct s; cbn [regex_match]; now rewrite H. Qed.

Lemma lazy_any_hit (acc s : jsstring) (m : captures) :
  after_role (rev acc) s = Some m -> lazy_any after_role acc s = Some m.
Proof. intros H. destruct s; cbn [lazy_any]; now rewrite H. Qed.

(** The pattern on a quoted and on an unquoted record. *)
Lemma regex_match_quoted (role start end_ : jsstring) :
  forallb plain role = true -> date_shape start = true -> date_shape end_ = true ->
  regex_match (quoted role ++ [COMMA] ++ quoted start ++ [COMMA] ++ quoted end_)
  = Some (role, start, end_).
Proof.
  intros Hr Hs He. apply regex_match_hit. unfold pattern_at, quoted.
  cbn [app]. apply opt_quote_hit. rewrite <- !app_assoc.
  rewrite lazy_any_plain by exact Hr. apply lazy_any_hit.
  rewrite app_nil_r, rev_involutive. cbn [app].
  unfold after_role. apply opt_quote_hit. rewrite comma_hit.
  rewrite spaces_miss by reflexivity. apply opt_quote_hit.
  rewrite date_hit by exact Hs. cbn [app].
  unfold after_start. apply opt_quote_hit. rewrite comma_hit.
  rewrite spaces_miss by reflexivity. apply opt_quote_hit.
  rewrite date_hit by exact He. apply opt_quote_hit. reflexivity.
Qed.

Lemma regex_match_unquoted (role start end_ : jsstring) :
  forallb plain role = true -> date_shape start = true -> date_shape end_ = true ->
  regex_match (role ++ [COMMA] ++ start ++ [COMMA] ++ end_)
  = Some (role, start, end_).
Proof.
  intros Hr Hs He. apply regex_match_hit. unfold pattern_at.
  destruct (date_shape_head start Hs) as (c & r & Es & Sc & Qc & _).
  destruct (date_shape_head end_ He) as (c' & r' & Ee & Sc' & Qc' & _).
  assert (O : opt_quote (lazy_any after_role [])
                (role ++ [COMMA] ++ start ++ [COMMA] ++ end_)
              = lazy_any after_role [] (role ++ [COMMA] ++ start ++ [COMMA] ++ end_)).
  { destruct role as [|x role]; [reflexivity|]. cbn [app]. apply opt_quote_miss.
    cbn [forallb] in Hr. apply andb_true_iff in Hr. destruct Hr as [Hx _].
    now apply plain_spec in Hx. }
  rewrite O. rewrite lazy_any_plain by exact Hr. apply lazy_any_hit.
  rewrite app_nil_r, rev_involutive. cbn [app].
  unfold after_role. rewrite opt_quote_miss by discriminate. rewrite comma_hit.
  rewrite Es at 1. cbn [app]. rewrite spaces_miss by exact Sc.
  rewrite opt_quote_miss by exact Qc.
  change (c :: r ++ COMMA :: end_) with ((c :: r) ++ COMMA :: end_). rewrite <- Es.
  rewrite date_hit by exact Hs.
  unfold after_start. rewrite opt_quote_miss by discriminate. rewrite comma_hit.
  rewrite Ee at 1. rewrite spaces_miss by exact Sc'.
  rewrite opt_quote_miss by exact Qc'. rewrite <- Ee.
  rewrite <- (app_nil_r end_) at 1. rewrite date_hit by exact He. reflexivity.
Qed.

(** X16.  A line of three fields separated by commas, all three in double
    quotes or none, is read back field by field when the role holds no
    quote, comma or line terminator and both dates have the shape
    [dddd-dd-dd]: with a role [ROLE_INFO] answers for and an end that is
    not before the start as strings, [parse_line] returns exactly that
    record. *)
Theorem well_formed_line_parses :
  forall (role start end_ : jsstring) (idx : nat),
    forallb plain role = true ->
    date_shape start = true -> date_shape end_ = true ->
    ROLE_INFO_has role = true ->
    string_lt end_ start = false ->
    parse_line (quoted role ++ [COMMA] ++ quoted start ++ [COMMA] ++ quoted end_) idx
    = Ok {| RoleEntry.role := role; RoleEntry.start := start; RoleEntry.end_ := end_ |}
    /\ parse_line (role ++ [COMMA] ++ start ++ [COMMA] ++ end_) idx
       = Ok {| RoleEntry.role := role; RoleEntry.start := start;
               RoleEntry.end_ := end_ |}.
Proof.
  intros role start end_ idx Hr Hs He Hk Ho. unfold parse_line.
  rewrite (regex_match_quoted role start end_ Hr Hs He).
  rewrite (regex_match_unquoted role start end_ Hr Hs He).
  rewrite Hk, Ho. cbn [negb]. split; reflexivity.
Qed.

Lemma well_formed_line_parses_witness :
  parse_line (quoted (key_string MID) ++ [COMMA] ++ quoted (units "2021-06-01")
              ++ [COMMA] ++ quoted (units "2024-12-31")) 0
  = Ok {| RoleEntry.role := key_string MID;
          RoleEntry.start := units "2021-06-01";
          RoleEntry.end_ := units "2024-12-31" |}.
Proof.
  apply (well_formed_line_parses (key_string MID) (units "2021-06-01")
           (units "2024-12-31") 0); vm_compute; reflexivity.
Defined.
